(** * gap: a static call-graph analyser for Go sources

    A shallow embedding of the indexing, call-resolution, graph-assembly
    and coverage code of the [tools] package, followed by the properties
    of that code.

    Conventions of the embedding.
    - Go [int] values (line numbers, hit counts) are [Z] or [nat] where
      the source only produces positions.
    - Go maps are stdpp [gmap]s, [map[string]struct{}] is a [gset].
    - A pointer is a location ([nat]) into an explicit store.
    - A function returning [(T, error)] returns a [result T]; where the Go
      program can panic the model says so ([run T]).
    - The standard library ([go/parser], [os], [path/filepath], [os/exec])
      is reached through a [World]: a file-system tree, a parser oracle
      and the output of the [go] tool. *)

From Stdlib Require Import ZArith Ascii String List Lia.
From stdpp Require Import base option list strings gmap pretty.

Set Warnings "-register-all".

(** ** Results and panics *)

(** What a Go function with results [(T, error)] returns. *)
Inductive result (A : Type) : Type :=
| Ok (a : A)
| Err (msg : string).
Arguments Ok {A} a.
Arguments Err {A} msg.

Definition rbind {A B} (m : result A) (k : A -> result B) : result B :=
  match m with
  | Ok a => k a
  | Err e => Err e
  end.

Notation "x <-! m ; k" := (rbind m (fun x => k))
  (at level 100, m at next level, right associativity, only parsing).

(** A call that can also end in a run-time panic. *)
Inductive run (A : Type) : Type :=
| Returns (r : result A)
| Panics.
Arguments Returns {A} r.
Arguments Panics {A}.

(** ** The part of [go/ast] the analyser inspects

    One type for expressions and statements, as [ast.Node] is one
    interface.  [CallExpr] carries the line of its position.  Node kinds
    the analyser never looks into ([BinaryExpr], [CompositeLit], [IfStmt],
    ...) are [OtherNode]s: their printed text and their children in
    traversal order.  A [FuncLit] keeps its printed text too. *)

Inductive Node : Type :=
| Ident (Name : string)
| BasicLit (Value : string)
| SelectorExpr (X : Node) (Sel : string)
| CallExpr (Line : nat) (Fun : Node) (Args : list Node)
| FuncLit (Text : string) (Body : list Node)
| StarExpr (X : Node)
| ArrayType (Elt : Node)
| MapType (Key Value : Node)
| FuncType (Text : string)
| ExprStmt (X : Node)
| DeferStmt (Call : Node)
| GoStmt (Call : Node)
| AssignStmt (Lhs Rhs : list Node)
| BlockStmt (List : list Node)
| OtherNode (Text : string) (Children : list Node).

(** [ast.Field]: the names declared and their type. *)
Record Field := mkField { field_Names : list string; field_Type : Node }.

(** [ast.FuncDecl].  [Body] is [None] for a declaration without an
    implementation; [Results] is [None] when [fn.Type.Results == nil]. *)
Record FuncDecl := mkFuncDecl {
  fd_Recv : option (list Field);
  fd_Name : string;
  fd_Params : list Field;
  fd_Results : option (list Field);
  fd_Body : option (list Node);
  fd_Pos : nat;      (* fset.Position(fn.Pos()).Line *)
  fd_End : nat       (* fset.Position(fn.End()).Line *)
}.

Inductive Decl : Type :=
| FuncD (fd : FuncDecl)
| GenDecl.

(** [ast.ImportSpec]: the optional alias and the path literal, quotes
    included. *)
Record ImportSpec := mkImportSpec { imp_Name : option string; imp_Path : string }.

Record File := mkFile {
  file_Name : string;               (* the package clause *)
  file_Imports : list ImportSpec;
  file_Decls : list Decl
}.

(** The function declarations of a file, in source order.  Go has no
    nested function declarations, so these are all the [*ast.FuncDecl]
    nodes an [ast.Inspect] of the file meets. *)
Definition funcDecls (f : File) : list FuncDecl :=
  flat_map (fun d => match d with FuncD fd => [fd] | GenDecl => [] end) (file_Decls f).

(** *** [ast.Inspect]

    The callback sees the node and the state and says whether to go into
    the children; children are visited in source order.  (The closing call
    with [nil] does nothing in any callback of this package.) *)

Section Inspect.
Context {S : Type} (f : Node -> S -> bool * S).

Fixpoint Inspect (n : Node) (s : S) : S :=
  let '(descend, s1) := f n s in
  if descend then
    let walkList := fix walkList (l : list Node) (s : S) : S :=
      match l with
      | [] => s
      | c :: r => walkList r (Inspect c s)
      end in
    match n with
    | Ident _ | BasicLit _ | FuncType _ => s1
    | SelectorExpr x _ => Inspect x s1
    | CallExpr _ fn args => walkList args (Inspect fn s1)
    | FuncLit _ body => walkList body s1
    | StarExpr x => Inspect x s1
    | ArrayType e => Inspect e s1
    | MapType k v => Inspect v (Inspect k s1)
    | ExprStmt x => Inspect x s1
    | DeferStmt c => Inspect c s1
    | GoStmt c => Inspect c s1
    | AssignStmt lhs rhs => walkList rhs (walkList lhs s1)
    | BlockStmt l => walkList l s1
    | OtherNode _ cs => walkList cs s1
    end
  else s1.

Definition InspectList (l : list Node) (s : S) : S :=
  fold_left (fun s c => Inspect c s) l s.

(** [ast.Inspect(fn.Body, f)]: a body that is a nil [*ast.BlockStmt]
    makes [ast.Walk] dereference nil: [None] is that panic. *)
Definition InspectBody (body : option (list Node)) (s : S) : option S :=
  match body with
  | None => None
  | Some l => Some (Inspect (BlockStmt l) s)
  end.
End Inspect.

(** *** [go/printer] on the nodes above *)

Definition join (sep : string) (l : list string) : string := String.concat sep l.

Fixpoint printNode (n : Node) : string :=
  match n with
  | Ident name => name
  | BasicLit v => v
  | SelectorExpr x sel => printNode x +:+ "." +:+ sel
  | CallExpr _ fn args => printNode fn +:+ "(" +:+ join ", " (map printNode args) +:+ ")"
  | FuncLit text _ => text
  | StarExpr x => "*" +:+ printNode x
  | ArrayType e => "[]" +:+ printNode e
  | MapType k v => "map[" +:+ printNode k +:+ "]" +:+ printNode v
  | FuncType text => text
  | ExprStmt x => printNode x
  | DeferStmt c => "defer " +:+ printNode c
  | GoStmt c => "go " +:+ printNode c
  | AssignStmt lhs rhs => join ", " (map printNode lhs) +:+ " = " +:+ join ", " (map printNode rhs)
  | BlockStmt _ => "{}"
  | OtherNode text _ => text
  end.
(* The package prints expressions only (arguments, receivers, types); the
   text of a statement is never asked for. *)

(** ** The [strings] and [path/filepath] functions the package calls

    Strings are byte strings; white space is ASCII white space. *)

Definition newline : ascii := "010"%char.
Definition slash : ascii := "/"%char.
Definition quote : ascii := "034"%char.

Definition HasPrefix (s pre : string) : bool := String.prefix pre s.

Definition HasSuffix (s suffix : string) : bool :=
  String.prefix (String.rev suffix) (String.rev s).

(** [strings.TrimPrefix]. *)
Fixpoint TrimPrefix_go (s pre : string) : option string :=
  match pre, s with
  | "", _ => Some s
  | String a pre', String b s' => if Ascii.eqb a b then TrimPrefix_go s' pre' else None
  | String _ _, "" => None
  end.
Definition TrimPrefix (s pre : string) : string :=
  default s (TrimPrefix_go s pre).

(** [strings.Split(s, sep)] for a separator of one byte: never empty, the
    pieces between the separators. *)
Fixpoint Split (sep : ascii) (s : string) : list string :=
  match s with
  | "" => [""]
  | String a r =>
      if Ascii.eqb a sep then "" :: Split sep r
      else match Split sep r with
           | h :: t => String a h :: t
           | [] => [String a ""]
           end
  end.

(** [strings.Fields]. *)
Definition Fields (s : string) : list string := String.words s.

Fixpoint trimLeftFunc (p : ascii -> bool) (s : string) : string :=
  match s with
  | "" => ""
  | String a r => if p a then trimLeftFunc p r else s
  end.
Definition trimFunc (p : ascii -> bool) (s : string) : string :=
  String.rev (trimLeftFunc p (String.rev (trimLeftFunc p s))).

Definition TrimSpace (s : string) : string := trimFunc Ascii.is_space s.

(** [strings.Trim(s, cutset)] for a cutset of one byte. *)
Definition Trim (s : string) (cut : ascii) : string := trimFunc (Ascii.eqb cut) s.

(** [filepath.Base] on a slash-separated path. *)
Definition filepath_Base (path : string) : string :=
  if decide (path = "") then "."
  else
    let stripped := String.rev (trimLeftFunc (Ascii.eqb slash) (String.rev path)) in
    if decide (stripped = "") then "/"
    else default stripped (last (Split slash stripped)).

(** Go map lookup in a [map[string]bool]: [false] when the key is absent. *)
Definition lookupBool (m : gmap string bool) (k : string) : bool :=
  default false (m !! k).

(** ** The world outside the program

    Paths are absolute and clean: the list of their components from the
    root.  (The indexer is called with the empty string and takes the
    working directory, which [os.Getwd] gives in this form.)
    [filepath.Join dir name] appends a component, [filepath.Dir] drops
    the last one and leaves the root as it is. *)

Definition Path := list string.

Definition path_str (p : Path) : string :=
  match p with
  | [] => "/"
  | _ => String.concat "" (map (fun c => "/" +:+ c) p)
  end.

Definition filepath_Dir (p : Path) : Path := removelast p.

(** [info.Name()]: the last component. *)
Definition path_Name (p : Path) : string := default "/" (last p).

(** A directory lists its entries in the order [os.ReadDir] returns them
    (sorted by name). *)
Inductive FsNode : Type :=
| FsFile (data : string)
| FsDir (entries : list (string * FsNode)).

Definition IsDir (n : FsNode) : bool :=
  match n with FsDir _ => true | FsFile _ => false end.

Fixpoint fs_entry (name : string) (entries : list (string * FsNode)) : option FsNode :=
  match entries with
  | [] => None
  | (n, node) :: r => if decide (n = name) then Some node else fs_entry name r
  end.

Fixpoint fs_lookup (n : FsNode) (p : Path) : option FsNode :=
  match p with
  | [] => Some n
  | c :: r =>
      match n with
      | FsDir entries =>
          match fs_entry c entries with
          | Some m => fs_lookup m r
          | None => None
          end
      | FsFile _ => None
      end
  end.

Record World := mkWorld {
  (** The working directory, against which the system resolves a
      relative path, and what [os.Getwd] answers. *)
  cwd : Path;
  os_Getwd : result Path;
  fs_root : FsNode;
  (** [parser.ParseFile] on a source text: the file or the syntax error. *)
  parser_Parse : string -> result File;
  (** [format.Node] on a function declaration. *)
  format_FuncDecl : FuncDecl -> result string;
  (** [exec.Command("go", "list", "std").Output()]. *)
  go_list_std : result string
}.

Section OS.
Context (W : World).

(** [os.Stat(p)] succeeds. *)
Definition os_Stat (p : Path) : bool := bool_decide (is_Some (fs_lookup (fs_root W) p)).

Definition os_ReadFile (p : Path) : result string :=
  match fs_lookup (fs_root W) p with
  | Some (FsFile data) => Ok data
  | Some (FsDir _) => Err ("read " +:+ path_str p +:+ ": is a directory")
  | None => Err ("open " +:+ path_str p +:+ ": no such file or directory")
  end.
End OS.

(** A path that may be relative, as [filepath.Join(projectRoot, rel)] is
    when [projectRoot] is the empty string. *)
Inductive GoPath : Type :=
| Abs (p : Path)
| Rel (p : list string).

(** [filepath.Join(projectRoot, rel)]; [None] is the empty string. *)
Definition filepath_Join (projectRoot : option Path) (rel : list string) : GoPath :=
  match projectRoot with
  | Some root => Abs (root ++ rel)
  | None => Rel rel
  end.

Definition gopath_str (g : GoPath) : string :=
  match g with
  | Abs p => path_str p
  | Rel p => String.concat "/" p
  end.

Section OSRel.
Context (W : World).

(** The node a path names; the empty path names nothing. *)
Definition fs_resolve (g : GoPath) : option FsNode :=
  match g with
  | Abs p => fs_lookup (fs_root W) p
  | Rel [] => None
  | Rel p => fs_lookup (fs_root W) (cwd W ++ p)
  end.

Definition os_ReadFile_at (g : GoPath) : result string :=
  match fs_resolve g with
  | Some (FsFile data) => Ok data
  | Some (FsDir _) => Err ("read " +:+ gopath_str g +:+ ": is a directory")
  | None => Err ("open " +:+ gopath_str g +:+ ": no such file or directory")
  end.
End OSRel.

(** *** [filepath.Walk]

    The callback gets the path and the node ([None] when [os.Lstat] of the
    root fails) and answers [nil], [filepath.SkipDir] or another error. *)

Inductive WalkVerdict : Type :=
| WalkNil
| SkipDir
| WalkErr (msg : string).

Section Walk.
Context {S : Type} (fn : Path -> option FsNode -> S -> WalkVerdict * S).

Fixpoint walk (path : Path) (info : FsNode) (s : S) : WalkVerdict * S :=
  match info with
  | FsFile _ => fn path (Some info) s
  | FsDir entries =>
      let '(err1, s1) := fn path (Some info) s in
      match err1 with
      | WalkNil =>
          (fix walkEntries (es : list (string * FsNode)) (s : S) : WalkVerdict * S :=
             match es with
             | [] => (WalkNil, s)
             | (name, child) :: r =>
                 let '(err, s2) := walk (path ++ [name]) child s in
                 match err with
                 | WalkNil => walkEntries r s2
                 | SkipDir => if IsDir child then walkEntries r s2 else (SkipDir, s2)
                 | WalkErr e => (WalkErr e, s2)
                 end
             end) entries s1
      | _ => (err1, s1)
      end
  end.

Definition filepath_Walk (W : World) (root : Path) (s : S) : option string * S :=
  let '(err, s') :=
    match fs_lookup (fs_root W) root with
    | None => fn root None s
    | Some info => walk root info s
    end in
  match err with
  | WalkErr e => (Some e, s')
  | _ => (None, s')
  end.
End Walk.

(** ** The indexer and its call analysis ([ListFunctions])

    A [*FunctionInfo] is the index of the descriptor in the [functions]
    slice, which is the store the registry and the call lists point
    into.  [log.Printf] appends to a list of messages. *)

Module Indexer.

Abbreviation loc := nat.

(** [builtInFuncs]: the names filtered out of the call lists. *)
Definition builtInFuncs : gmap string bool :=
  list_to_map
    [("len", true); ("cap", true); ("append", true); ("copy", true);
     ("close", true); ("delete", true); ("make", true); ("new", true);
     ("panic", true); ("recover", true); ("string", true); ("println", true)].

Record External := mkExternal {
  ext_Name : string;
  ext_Type : string;
  ext_ImportPath : string
}.

Record FunctionInfo := mkFunctionInfo {
  FileName : Path;
  FuncName : string;
  Line : nat;
  PkgName : string;
  Parameters : list string;
  Returns_ : list string;
  Externals : list External;
  FunctionCalls : list loc
}.

(** [fn.FunctionCalls = append(fn.FunctionCalls, calledFunc)]. *)
Definition addFunctionCall (fn : FunctionInfo) (calledFunc : loc) : FunctionInfo :=
  mkFunctionInfo (FileName fn) (FuncName fn) (Line fn) (PkgName fn)
    (Parameters fn) (Returns_ fn) (Externals fn) (FunctionCalls fn ++ [calledFunc]).

(** [fn.Externals = append(fn.Externals, external)]. *)
Definition addExternal (fn : FunctionInfo) (e : External) : FunctionInfo :=
  mkFunctionInfo (FileName fn) (FuncName fn) (Line fn) (PkgName fn)
    (Parameters fn) (Returns_ fn) (Externals fn ++ [e]) (FunctionCalls fn).

(** [exprToString(expr, fset)].  The default case prints into a
    buffer. *)
Fixpoint exprToString (expr : Node) : result string :=
  match expr with
  | Ident name => Ok name
  | SelectorExpr x sel =>
      es <-! exprToString x; Ok (es +:+ "." +:+ sel)
  | StarExpr x =>
      es <-! exprToString x; Ok ("*" +:+ es)
  | ArrayType elt =>
      es <-! exprToString elt; Ok ("[]" +:+ es)
  | MapType k v =>
      es <-! exprToString k;
      es2 <-! exprToString v;
      Ok ("map[" +:+ es +:+ "]" +:+ es2)
  | FuncType _ => Ok "func"
  | _ => Ok (printNode expr)
  end.

(** The loop shared by [extractParameters] and [extractReturns]: one
    entry per declared name, or the bare type. *)
Fixpoint extractFields (fields : list Field) (acc : list string) : result (list string) :=
  match fields with
  | [] => Ok acc
  | fld :: rest =>
      typeStr <-! exprToString (field_Type fld);
      match field_Names fld with
      | [] => extractFields rest (acc ++ [typeStr])
      | names => extractFields rest (acc ++ map (fun name => name +:+ " " +:+ typeStr) names)
      end
  end.

Definition extractParameters (fn : FuncDecl) : result (list string) :=
  extractFields (fd_Params fn) [].

Definition extractReturns (fn : FuncDecl) : result (list string) :=
  match fd_Results fn with
  | None => Ok []
  | Some results => extractFields results []
  end.

(** [buildImportMap]: alias to import path. *)
Definition buildImportMap (node : File) : gmap string string :=
  fold_left
    (fun importMap imp =>
       let importPath := Trim (imp_Path imp) quote in
       let alias :=
         match imp_Name imp with
         | Some name => name
         | None => filepath_Base importPath
         end in
       <[alias := importPath]> importMap)
    (file_Imports node) ∅.

(** The registry key of the indexer: ["pkgName.funcName"]. *)
Definition registryKey (pkgName funcName : string) : string :=
  pkgName +:+ "." +:+ funcName.

(** The callback of the [ast.Inspect] in [analyzeFunctionCalls]; the
    state is the descriptor whose lists it appends to.  (The debugging
    [println]s are left out.) *)
Definition analyzeFunctionCalls_visit
    (internalFuncs : gmap string loc) (importMap : gmap string string)
    (stdPkgs : gmap string bool) (modulePath : string)
    (n : Node) (fn : FunctionInfo) : bool * FunctionInfo :=
  match n with
  | CallExpr _ (Ident funcName) _ =>
      if lookupBool builtInFuncs funcName then (true, fn)
      else
        let key := registryKey (PkgName fn) funcName in
        match internalFuncs !! key with
        | Some calledFunc => (true, addFunctionCall fn calledFunc)
        | None => (true, addExternal fn (mkExternal funcName "" ""))
        end
  | CallExpr _ (SelectorExpr (Ident pkgAlias) funcName) _ =>
      match importMap !! pkgAlias with
      | None => (true, fn)
      | Some importPath =>
          if lookupBool stdPkgs importPath then (true, fn)
          else if HasPrefix importPath modulePath then
            let baseImportPath := filepath_Base importPath in
            let key := registryKey baseImportPath funcName in
            match internalFuncs !! key with
            | Some calledFunc => (true, addFunctionCall fn calledFunc)
            | None => (true, addExternal fn (mkExternal funcName pkgAlias importPath))
            end
          else (true, addExternal fn (mkExternal funcName pkgAlias importPath))
      end
  | _ => (true, fn)
  end.

(** The first declaration of the file with the descriptor's name and
    line. *)
Fixpoint findTarget (decls : list Decl) (fn : FunctionInfo) : option FuncDecl :=
  match decls with
  | [] => None
  | FuncD f :: rest =>
      if decide (fd_Name f = FuncName fn ∧ fd_Pos f = Line fn) then Some f
      else findTarget rest fn
  | GenDecl :: rest => findTarget rest fn
  end.

(** The [module] line of a manifest: the second field of the first
    line that starts with [module ] and has two fields. *)
Fixpoint findModuleLine (lines : list string) : option string :=
  match lines with
  | [] => None
  | line :: rest =>
      if HasPrefix line "module " then
        match Fields line with
        | _ :: p :: _ => Some p
        | _ => findModuleLine rest
        end
      else findModuleLine rest
  end.

(** What the first pass builds. *)
Record IndexState := mkIndexState {
  functions : list FunctionInfo;
  internalFuncs : gmap string loc;
  log : list string
}.

Definition logf (st : IndexState) (msg : string) : IndexState :=
  mkIndexState (functions st) (internalFuncs st) (log st ++ [msg]).

(** The first pass on one function declaration of the file at [path]:
    the descriptor is appended and the registry entry for its key is
    set to it. *)
Definition ListFunctions_decl (path : Path) (pkgName : string)
    (st : IndexState) (fn : FuncDecl) : IndexState :=
  match extractParameters fn with
  | Err e =>
      logf st ("Error extracting parameters for function " +:+ fd_Name fn
               +:+ " in " +:+ path_str path +:+ ": " +:+ e)
  | Ok params =>
      match extractReturns fn with
      | Err e =>
          logf st ("Error extracting return types for function " +:+ fd_Name fn
                   +:+ " in " +:+ path_str path +:+ ": " +:+ e)
      | Ok returns =>
          let funcInfo :=
            mkFunctionInfo path (fd_Name fn) (fd_Pos fn) pkgName params returns [] [] in
          let key := registryKey pkgName (fd_Name fn) in
          mkIndexState (functions st ++ [funcInfo])
                       (<[key := length (functions st)]> (internalFuncs st))
                       (log st)
      end
  end.

Section WithWorld.
Context (W : World).

(** [getStandardPackages]. *)
Definition getStandardPackages : result (gmap string bool) :=
  match go_list_std W with
  | Err e => Err ("failed to execute 'go list std': " +:+ e)
  | Ok output =>
      let pkgs := Split newline (TrimSpace output) in
      Ok (fold_left (fun stdPkgs pkg => <[pkg := true]> stdPkgs) pkgs ∅)
  end.

(** [getModulePath] once [os.Stat] has found the manifest: the file is
    read and its module line returned. *)
Definition getModulePath_read (goModPath : Path) : result string :=
  match os_ReadFile W goModPath with
  | Err e => Err ("failed to read go.mod at " +:+ path_str goModPath +:+ ": " +:+ e)
  | Ok data =>
      match findModuleLine (Split newline data) with
      | Some p => Ok p
      | None => Err ("module path not found in go.mod at " +:+ path_str goModPath)
      end
  end.

(** The loop of [getModulePath].  It climbs with [filepath.Dir], which
    drops the last component, so the recursion is on the components
    of the directory, innermost first; it stops at the root, where
    [filepath.Dir dir = dir] (see [getModulePath_loop] below). *)
Fixpoint getModulePath_from (rdir : list string) : result string :=
  let dir : Path := rev rdir in
  let goModPath := dir ++ ["go.mod"] in
  if os_Stat W goModPath then getModulePath_read goModPath
  else
    match rdir with
    | [] => Err "go.mod not found in any parent directories"
    | _ :: parent => getModulePath_from parent
    end.

Definition getModulePath (dir : Path) : result string :=
  getModulePath_from (rev dir).

(** [analyzeFunctionCalls]: the descriptor with its two lists filled,
    or the error, in which case the descriptor is as it was. *)
Definition analyzeFunctionCalls (fn : FunctionInfo)
    (internalFuncs : gmap string loc) (stdPkgs : gmap string bool)
    (modulePath : string) : run FunctionInfo :=
  match os_ReadFile W (FileName fn) with
  | Err e =>
      Returns (Err ("failed to read file " +:+ path_str (FileName fn) +:+ ": " +:+ e))
  | Ok src =>
      match parser_Parse W src with
      | Err e =>
          Returns (Err ("failed to parse file " +:+ path_str (FileName fn) +:+ ": " +:+ e))
      | Ok node =>
          let importMap := buildImportMap node in
          match findTarget (file_Decls node) fn with
          | None =>
              Returns (Err ("function " +:+ FuncName fn +:+ " not found in file "
                            +:+ path_str (FileName fn) +:+ " at line " +:+ pretty (Line fn)))
          | Some targetFunc =>
              match InspectBody
                      (analyzeFunctionCalls_visit internalFuncs importMap stdPkgs modulePath)
                      (fd_Body targetFunc) fn with
              | None => Panics
              | Some fn' => Returns (Ok fn')
              end
          end
      end
  end.

(** The callback of the [filepath.Walk] of the first pass. *)
Definition ListFunctions_walkFn (path : Path) (info : option FsNode)
    (st : IndexState) : WalkVerdict * IndexState :=
  match info with
  | None =>
      (WalkNil, logf st ("Error accessing path " +:+ path_str path +:+ ": lstat "
                         +:+ path_str path +:+ ": no such file or directory"))
  | Some node =>
      if IsDir node && bool_decide (path_Name path = "vendor") then (SkipDir, st)
      else if negb (IsDir node) && HasSuffix (path_Name path) ".go"
              && negb (HasSuffix (path_Name path) "_test.go") then
        match node with
        | FsFile data =>
            match parser_Parse W data with
            | Err e =>
                (WalkNil, logf st ("Failed to parse file " +:+ path_str path +:+ ": " +:+ e))
            | Ok file =>
                (WalkNil,
                 fold_left (ListFunctions_decl path (file_Name file)) (funcDecls file) st)
            end
        | FsDir _ => (WalkNil, st)
        end
      else (WalkNil, st)
  end.

(** The second pass: [for _, fn := range functions], each [*fn]
    analysed in place; an error is logged and the loop goes on. *)
Fixpoint ListFunctions_analyze (todo done : list FunctionInfo)
    (internalFuncs : gmap string loc) (stdPkgs : gmap string bool)
    (modulePath : string) (log : list string)
    : option (list FunctionInfo * list string) :=
  match todo with
  | [] => Some (done, log)
  | fn :: rest =>
      match analyzeFunctionCalls fn internalFuncs stdPkgs modulePath with
      | Panics => None
      | Returns (Ok fn') =>
          ListFunctions_analyze rest (done ++ [fn']) internalFuncs stdPkgs modulePath log
      | Returns (Err e) =>
          ListFunctions_analyze rest (done ++ [fn]) internalFuncs stdPkgs modulePath
            (log ++ ["Error analyzing function calls for " +:+ FuncName fn +:+ ": " +:+ e])
      end
  end.

End WithWorld.

(** [ListFunctions]: the descriptors and what was logged.
    [projectDir] is [None] for the empty string.  The second pass reads
    the files again: [W] is the world of the first pass and [W2] the
    world of the second, the same unless the tree changed in
    between. *)
Definition ListFunctions (W W2 : World) (projectDir : option Path)
    : run (list FunctionInfo * list string) :=
  match (match projectDir with
         | Some dir => Ok dir
         | None =>
             match os_Getwd W with
             | Ok wd => Ok wd
             | Err e => Err ("error getting current working directory: " +:+ e)
             end
         end) with
  | Err e => Returns (Err e)
  | Ok projectDir =>
      match getStandardPackages W with
      | Err e => Returns (Err ("failed to retrieve standard packages: " +:+ e))
      | Ok stdPkgs =>
          match getModulePath W projectDir with
          | Err e => Returns (Err ("failed to get module path: " +:+ e))
          | Ok modulePath =>
              match filepath_Walk (ListFunctions_walkFn W) W projectDir
                      (mkIndexState [] ∅ []) with
              | (Some e, _) => Returns (Err e)
              | (None, st) =>
                  match ListFunctions_analyze W2 (functions st) [] (internalFuncs st)
                          stdPkgs modulePath (log st) with
                  | None => Panics
                  | Some r => Returns (Ok r)
                  end
              end
          end
      end
  end.
End Indexer.

(** ** The coverage analyser ([coverage.go]) *)

Module Coverage.

Record CoverageBlock := mkCoverageBlock {
  StartLine : Z;
  StartCol : Z;
  EndLine : Z;
  EndCol : Z;
  Count : Z
}.

(** [isFunctionCovered]: the loop returns at the first executed
    block. *)
Fixpoint anyExecuted (blocks : list CoverageBlock) : bool :=
  match blocks with
  | [] => false
  | block :: rest =>
      if bool_decide (Count block > 0)%Z then true else anyExecuted rest
  end.

Definition isFunctionCovered (fn : FuncDecl) (blocks : list CoverageBlock) : bool :=
  match fd_Body fn with
  | None => false
  | Some _ => anyExecuted blocks
  end.

(** The untested descriptor the callback appends. *)
Definition untested (filePath : Path) (fn : FuncDecl) (params : list string)
    : Indexer.FunctionInfo :=
  Indexer.mkFunctionInfo filePath (fd_Name fn) (fd_Pos fn) "" params [] [] [].

(** The callback of the [ast.Inspect] in [ListUntestedFunctions] on a
    function declaration of the file at [filePath]; the state is the
    list of untested functions and the log. *)
Definition ListUntestedFunctions_visit
    (coverageData : gmap string (list CoverageBlock)) (filePath : Path)
    (st : list Indexer.FunctionInfo * list string) (fn : FuncDecl)
    : list Indexer.FunctionInfo * list string :=
  let '(untestedFunctions, log) := st in
  let report :=
    match Indexer.extractParameters fn with
    | Err e =>
        (untestedFunctions,
         log ++ ["Failed to extract parameters for function " +:+ fd_Name fn +:+ ": " +:+ e])
    | Ok params => (untestedFunctions ++ [untested filePath fn params], log)
    end in
  match coverageData !! path_str filePath with
  | None => report
  | Some blocks => if negb (isFunctionCovered fn blocks) then report else st
  end.

(** [ListUntestedFunctions] on one parsed file. *)
Definition ListUntestedFunctions_file
    (coverageData : gmap string (list CoverageBlock)) (filePath : Path) (file : File)
    (st : list Indexer.FunctionInfo * list string)
    : list Indexer.FunctionInfo * list string :=
  fold_left (ListUntestedFunctions_visit coverageData filePath) (funcDecls file) st.

(** The overlap the analyser is documented to check: the line range of
    the block meets the span [fd_Pos .. fd_End] of the function. *)
Definition overlaps (fn : FuncDecl) (block : CoverageBlock) : Prop :=
  (StartLine block <= Z.of_nat (fd_End fn) /\ Z.of_nat (fd_Pos fn) <= EndLine block)%Z.
End Coverage.

(** ** Function descriptors of the call-graph pipeline ([project.go]) *)

Module Project.

Record ParameterInfo := mkParameterInfo {
  param_Name : string;
  param_Type : string;
  param_ImportPath : string;
  param_ImportName : string
}.

Record ReturnInfo := mkReturnInfo {
  ret_Type : string;
  ret_ImportPath : string;
  ret_ImportName : string
}.

Record FunctionInfo := mkFunctionInfo {
  RelativeFilePath : list string;    (* [] is the empty string *)
  PkgName : string;
  Name : string;
  StructName : string;
  Parameters : list ParameterInfo;
  Returns_ : list ReturnInfo;
  LineNumberStart : nat;
  LineNumberEnd : nat
}.

(** [exprToString(expr)]: [format.Node] into a buffer. *)
Definition exprToString (expr : Node) : string := printNode expr.

(** Whether a declaration is the one the descriptor names: same name,
    and the same receiver type up to a leading [*], or no receiver for
    a function. *)
Definition declMatches (fi : FunctionInfo) (fd : FuncDecl) : bool :=
  bool_decide (fd_Name fd = Name fi) &&
  if bool_decide (StructName fi ≠ "") then
    match fd_Recv fd with
    | Some (recv :: _) =>
        let recvType := TrimPrefix (exprToString (field_Type recv)) "*" in
        let structName := TrimPrefix (StructName fi) "*" in
        bool_decide (recvType = structName)
    | _ => false
    end
  else
    match fd_Recv fd with
    | None => true
    | Some _ => false
    end.

Fixpoint findDecl (fi : FunctionInfo) (decls : list Decl) : option FuncDecl :=
  match decls with
  | [] => None
  | FuncD fd :: rest => if declMatches fi fd then Some fd else findDecl fi rest
  | GenDecl :: rest => findDecl fi rest
  end.

Section WithWorld.
Context (W : World).

(** [GetFunctionWithComments(fi, projectRoot)]: the text of the
    declaration. *)
Definition GetFunctionWithComments (fi : FunctionInfo) (projectRoot : option Path)
    : result string :=
  let fullPath := filepath_Join projectRoot (RelativeFilePath fi) in
  match fs_resolve W fullPath with
  | None => Err ("file does not exist: " +:+ gopath_str fullPath)
  | Some _ =>
      match os_ReadFile_at W fullPath with
      | Err e => Err ("failed to read file " +:+ gopath_str fullPath +:+ ": " +:+ e)
      | Ok src =>
          match parser_Parse W src with
          | Err e => Err ("failed to parse file " +:+ gopath_str fullPath +:+ ": " +:+ e)
          | Ok file =>
              match findDecl fi (file_Decls file) with
              | Some funcDecl =>
                  match format_FuncDecl W funcDecl with
                  | Err e => Err ("failed to format function " +:+ Name fi +:+ ": " +:+ e)
                  | Ok funcCode => Ok funcCode
                  end
              | None =>
                  Err ("function " +:+ Name fi +:+ " not found in file "
                       +:+ gopath_str fullPath)
              end
          end
      end
  end.
End WithWorld.
End Project.

(** ** Call extraction ([functions.go]) *)

Module Functions.
Import Project.

(** [FunctionCallInfo]; [Calls] are the calls within the arguments. *)
Inductive FunctionCallInfo : Type := mkFunctionCallInfo {
  Function : string;
  Line : nat;
  Calls : list FunctionCallInfo;
  FullExpr : string;
  Package : string;
  Receiver : string;
  Arguments_ : list string;
  FilePath : GoPath;
  call_StructName : string
}.

(** [getFunctionName]: the function name, the package name and the
    receiver of the expression a call applies. *)
Definition getFunctionName (fun_ : Node) (imports : gset string)
    : string * string * string :=
  match fun_ with
  | Ident name => (name, "", "")
  | SelectorExpr x selector =>
      match x with
      | Ident xName =>
          if bool_decide (xName ∈ imports) then (selector, xName, "")
          else (selector, "", xName)
      | _ => (selector, "", exprToString x)
      end
  | FuncLit _ _ => ("func", "", "")
  | _ => (exprToString fun_, "", "")
  end.

Section Extract.
Context (projectRoot : option Path) (filePath : list string) (imports : gset string).

(** The record [extractCallInfo] builds for a call, given the
    function that finds the calls within one argument. *)
Definition callInfo (nested : Node -> list FunctionCallInfo)
    (line : nat) (fun_ : Node) (args : list Node) : FunctionCallInfo :=
  let '(functionName, packageName, receiverName) := getFunctionName fun_ imports in
  mkFunctionCallInfo functionName line (flat_map nested args)
    (exprToString (CallExpr line fun_ args)) packageName receiverName
    (map exprToString args) (filepath_Join projectRoot filePath) "".

(** [extractNestedCalls]: the calls met on the way down an expression;
    a call is recorded and its sub-expressions are left to
    [extractCallInfo], which looks into the arguments only.  The two
    functions call each other through [ast.Inspect]; here the recursion
    is on the expression, and [Inspect_collect] below shows that it is
    the [ast.Inspect] with the callback of the source. *)
Fixpoint extractNestedCalls (expr : Node) : list FunctionCallInfo :=
  match expr with
  | CallExpr line fun_ args => [callInfo extractNestedCalls line fun_ args]
  | Ident _ | BasicLit _ | FuncType _ => []
  | SelectorExpr x _ => extractNestedCalls x
  | FuncLit _ body => flat_map extractNestedCalls body
  | StarExpr x => extractNestedCalls x
  | ArrayType e => extractNestedCalls e
  | MapType k v => extractNestedCalls k ++ extractNestedCalls v
  | ExprStmt x => extractNestedCalls x
  | DeferStmt c => extractNestedCalls c
  | GoStmt c => extractNestedCalls c
  | AssignStmt lhs rhs => flat_map extractNestedCalls lhs ++ flat_map extractNestedCalls rhs
  | BlockStmt l => flat_map extractNestedCalls l
  | OtherNode _ cs => flat_map extractNestedCalls cs
  end.

(** [extractCallInfo] on the call [fun_(args...)] at [line]. *)
Definition extractCallInfo (line : nat) (fun_ : Node) (args : list Node)
    : FunctionCallInfo :=
  callInfo extractNestedCalls line fun_ args.

(** The callback both [ast.Inspect]s of the file pass: a call is
    recorded and not entered, anything else is entered. *)
Definition collect_visit (n : Node) (calls : list FunctionCallInfo)
    : bool * list FunctionCallInfo :=
  match n with
  | CallExpr line fun_ args => (false, calls ++ [extractCallInfo line fun_ args])
  | _ => (true, calls)
  end.
End Extract.

(** The set of import names of a file, as [GetFunctionCalls] collects
    it. *)
Definition collectImports (file : File) : gset string :=
  fold_left
    (fun imports imp =>
       let importName :=
         match imp_Name imp with
         | Some name => name
         | None => filepath_Base (Trim (imp_Path imp) quote)
         end in
       {[importName]} ∪ imports)
    (file_Imports file) ∅.

Section WithWorld.
Context (W : World).

(** The source [GetFunctionCalls] parses and the project root it goes
    on with: the given code under a package clause, or, for a
    descriptor without a file path, the file at the project root. *)
Definition GetFunctionCalls_src (functionCode : string) (fi : FunctionInfo)
    (projectRoot : option Path) : result (string * option Path) :=
  let src := "package " +:+ PkgName fi +:+ String newline functionCode in
  match RelativeFilePath fi with
  | [] =>
      match os_Getwd W with
      | Err e => Err e
      | Ok wd =>
          let projectRoot := match projectRoot with None => wd | Some r => r end in
          let fullPath := filepath_Join (Some projectRoot) (RelativeFilePath fi) in
          match fs_resolve W fullPath with
          | None => Err ("file does not exist: " +:+ gopath_str fullPath)
          | Some _ =>
              match os_ReadFile_at W fullPath with
              | Err e =>
                  Err ("failed to read file " +:+ gopath_str fullPath +:+ ": " +:+ e)
              | Ok srcByte => Ok (srcByte, Some projectRoot)
              end
          end
      end
  | _ => Ok (src, projectRoot)
  end.

(** [GetFunctionCalls]. *)
Definition GetFunctionCalls (functionCode : string) (fi : FunctionInfo)
    (projectRoot : option Path) : run (list FunctionCallInfo) :=
  match GetFunctionCalls_src functionCode fi projectRoot with
  | Err e => Returns (Err e)
  | Ok (src, projectRoot) =>
      match parser_Parse W src with
      | Err e => Returns (Err ("failed to parse function code: " +:+ e))
      | Ok file =>
          let imports := collectImports file in
          match findDecl fi (file_Decls file) with
          | None => Returns (Err ("function " +:+ Name fi +:+ " not found"))
          | Some funcDecl =>
              match InspectBody
                      (collect_visit projectRoot (RelativeFilePath fi) imports)
                      (fd_Body funcDecl) [] with
              | None => Panics
              | Some calls => Returns (Ok calls)
              end
          end
      end
  end.
End WithWorld.
End Functions.

(** ** Graph assembly ([graph.go])

    A [*FunctionNode] is a location in the store of nodes; the adjacency
    maps of a node hold such locations. *)

Module Graph.
Import Project Functions.

Abbreviation loc := nat.

Record FunctionNode := mkFunctionNode {
  node_Name : string;
  node_Calls : gmap string loc;
  node_CalledBy : gmap string loc
}.

(** The nodes allocated so far and [CallGraph.Nodes]. *)
Record CallGraph := mkCallGraph {
  store : list FunctionNode;
  Nodes : gmap string loc
}.

(** [getFunctionFullName]. *)
Definition getFunctionFullName (fi : FunctionInfo) : string :=
  if bool_decide (StructName fi ≠ "") then StructName fi +:+ "." +:+ Name fi
  else Name fi.

(** [if _, exists := graph.Nodes[name]; !exists { graph.Nodes[name] =
    &FunctionNode{...} }]. *)
Definition ensureNode (name : string) (g : CallGraph) : CallGraph :=
  match Nodes g !! name with
  | Some _ => g
  | None =>
      mkCallGraph (store g ++ [mkFunctionNode name ∅ ∅])
                  (<[name := length (store g)]> (Nodes g))
  end.

Definition setCalls (key : string) (target : loc) (n : FunctionNode) : FunctionNode :=
  mkFunctionNode (node_Name n) (<[key := target]> (node_Calls n)) (node_CalledBy n).

Definition setCalledBy (key : string) (source : loc) (n : FunctionNode) : FunctionNode :=
  mkFunctionNode (node_Name n) (node_Calls n) (<[key := source]> (node_CalledBy n)).

(** The name under which a call is entered in the graph. *)
Definition calledFuncName (call : FunctionCallInfo) : string :=
  if bool_decide (Receiver call ≠ "") then Receiver call +:+ "." +:+ Function call
  else if bool_decide (Package call ≠ "") then Package call +:+ "." +:+ Function call
  else Function call.

(** The body of the loop over the calls of the function whose node is
    [node] ([None] for a nil pointer) under the name [funcFullName]:
    the called node is created if need be, then both ends are updated.
    [None] is the dereference of a nil node. *)
Definition addEdge (funcFullName : string) (node : option loc) (g : CallGraph)
    (call : FunctionCallInfo) : option CallGraph :=
  let name := calledFuncName call in
  let g1 := ensureNode name g in
  match node, Nodes g1 !! name with
  | Some node, Some calledNode =>
      let store2 := alter (setCalls name calledNode) node (store g1) in
      let store3 := alter (setCalledBy funcFullName node) calledNode store2 in
      Some (mkCallGraph store3 (Nodes g1))
  | _, _ => None
  end.

Fixpoint addEdges (funcFullName : string) (node : option loc) (g : CallGraph)
    (calls : list FunctionCallInfo) : option CallGraph :=
  match calls with
  | [] => Some g
  | call :: rest =>
      match addEdge funcFullName node g call with
      | None => None
      | Some g' => addEdges funcFullName node g' rest
      end
  end.

(** The first loop of [BuildCallGraph]: a node for each function. *)
Definition BuildCallGraph_nodes (functions : list FunctionInfo) : CallGraph :=
  fold_left (fun g fi => ensureNode (getFunctionFullName fi) g) functions
            (mkCallGraph [] ∅).

Section WithWorld.
Context (W : World).

(** The second loop of [BuildCallGraph]: the calls of each function
    become edges; an error of either helper ends the assembly. *)
Fixpoint BuildCallGraph_edges (functions : list FunctionInfo)
    (projectRoot : option Path) (g : CallGraph) : run CallGraph :=
  match functions with
  | [] => Returns (Ok g)
  | fi :: rest =>
      let funcFullName := getFunctionFullName fi in
      let node := Nodes g !! funcFullName in
      match GetFunctionWithComments W fi projectRoot with
      | Err e => Returns (Err e)
      | Ok funcCode =>
          match GetFunctionCalls W funcCode fi projectRoot with
          | Panics => Panics
          | Returns (Err e) => Returns (Err e)
          | Returns (Ok calls) =>
              match addEdges funcFullName node g calls with
              | None => Panics
              | Some g' => BuildCallGraph_edges rest projectRoot g'
              end
          end
      end
  end.

(** [BuildCallGraph]. *)
Definition BuildCallGraph (functions : list FunctionInfo) (projectRoot : option Path)
    : run CallGraph :=
  BuildCallGraph_edges functions projectRoot (BuildCallGraph_nodes functions).
End WithWorld.
End Graph.

(** ** Notions the properties are stated with *)

(** The children of a node, in the order [ast.Walk] visits them. *)
Definition children (n : Node) : list Node :=
  match n with
  | Ident _ | BasicLit _ | FuncType _ => []
  | SelectorExpr x _ => [x]
  | CallExpr _ fn args => fn :: args
  | FuncLit _ body => body
  | StarExpr x => [x]
  | ArrayType e => [e]
  | MapType k v => [k; v]
  | ExprStmt x => [x]
  | DeferStmt c => [c]
  | GoStmt c => [c]
  | AssignStmt lhs rhs => lhs ++ rhs
  | BlockStmt l => l
  | OtherNode _ cs => cs
  end.


(** The call expressions of a node, outermost first: all of them. *)
Fixpoint callExprs (n : Node) : list Node :=
  match n with
  | Ident _ | BasicLit _ | FuncType _ => []
  | SelectorExpr x _ => callExprs x
  | CallExpr _ fn args => n :: callExprs fn ++ flat_map callExprs args
  | FuncLit _ body => flat_map callExprs body
  | StarExpr x => callExprs x
  | ArrayType e => callExprs e
  | MapType k v => callExprs k ++ callExprs v
  | ExprStmt x => callExprs x
  | DeferStmt c => callExprs c
  | GoStmt c => callExprs c
  | AssignStmt lhs rhs => flat_map callExprs lhs ++ flat_map callExprs rhs
  | BlockStmt l => flat_map callExprs l
  | OtherNode _ cs => flat_map callExprs cs
  end.

(** The call expressions of a node that do not lie inside the target
    expression of another call, outermost first. *)
Fixpoint callsOutsideTargets (n : Node) : list Node :=
  match n with
  | Ident _ | BasicLit _ | FuncType _ => []
  | SelectorExpr x _ => callsOutsideTargets x
  | CallExpr _ _ args => n :: flat_map callsOutsideTargets args
  | FuncLit _ body => flat_map callsOutsideTargets body
  | StarExpr x => callsOutsideTargets x
  | ArrayType e => callsOutsideTargets e
  | MapType k v => callsOutsideTargets k ++ callsOutsideTargets v
  | ExprStmt x => callsOutsideTargets x
  | DeferStmt c => callsOutsideTargets c
  | GoStmt c => callsOutsideTargets c
  | AssignStmt lhs rhs => flat_map callsOutsideTargets lhs ++ flat_map callsOutsideTargets rhs
  | BlockStmt l => flat_map callsOutsideTargets l
  | OtherNode _ cs => flat_map callsOutsideTargets cs
  end.

(** The line and the text of a call expression. *)
Definition callText (n : Node) : nat * string :=
  match n with
  | CallExpr line _ _ => (line, printNode n)
  | _ => (0, printNode n)
  end.

(** A record and the records nested in it, outermost first. *)
Fixpoint allRecords (c : Functions.FunctionCallInfo) : list Functions.FunctionCallInfo :=
  match c with
  | Functions.mkFunctionCallInfo _ _ calls _ _ _ _ _ _ => c :: flat_map allRecords calls
  end.

(** A record names a package or a receiver, not both. *)
Definition oneQualifier (c : Functions.FunctionCallInfo) : Prop :=
  Functions.Package c = "" \/ Functions.Receiver c = "".

(** What the call analysis of the indexer has recorded in a
    descriptor. *)
Definition recorded (fn : Indexer.FunctionInfo) : nat :=
  length (Indexer.FunctionCalls fn) + length (Indexer.Externals fn).

(** The names [builtInFuncs] holds. *)
Definition builtInNames : list string :=
  ["len"; "cap"; "append"; "copy"; "close"; "delete"; "make"; "new";
   "panic"; "recover"; "string"; "println"].

(** Every registry entry points to a descriptor of the store, and the
    key is the one of that descriptor. *)
Definition registryPointsTo (st : Indexer.IndexState) : Prop :=
  forall key d,
    Indexer.internalFuncs st !! key = Some d ->
    exists fi, Indexer.functions st !! d = Some fi /\
               Indexer.registryKey (Indexer.PkgName fi) (Indexer.FuncName fi) = key.

(** A descriptor the call analysis has not filled. *)
Definition unanalysed (fi : Indexer.FunctionInfo) : Prop :=
  Indexer.FunctionCalls fi = [] /\ Indexer.Externals fi = [].

(** A string without white space. *)
Fixpoint noSpace (s : string) : bool :=
  match s with
  | "" => true
  | String a r => negb (Ascii.is_space a) && noSpace r
  end.

(** A manifest declares the module path [p]: one of its lines is
    [module p], and no line before it starts with [module ]. *)
Definition declaresModule (data p : string) : Prop :=
  p <> "" /\ noSpace p = true /\
  exists before after,
    Split newline data = before ++ ("module " +:+ p) :: after /\
    Forall (fun line => HasPrefix line "module " = false) before.

(** What the second pass of [ListFunctions] logs for a function whose
    analysis fails. *)
Definition analysisError (fn : Indexer.FunctionInfo) (e : string) : string :=
  "Error analyzing function calls for " +:+ Indexer.FuncName fn +:+ ": " +:+ e.

(** What the first pass of [ListFunctions] keeps. *)
Definition firstPassInv (st : Indexer.IndexState) : Prop :=
  registryPointsTo st /\ Forall unanalysed (Indexer.functions st).

(** What a node of the graph holds: its name, the node it calls under a
    key, the node that calls it under a key. *)
Definition nameOf (g : Graph.CallGraph) (l : Graph.loc) : option string :=
  Graph.node_Name <$> Graph.store g !! l.

Definition callsOf (g : Graph.CallGraph) (l : Graph.loc) (key : string) : option Graph.loc :=
  n ← Graph.store g !! l; Graph.node_Calls n !! key.

Definition calledByOf (g : Graph.CallGraph) (l : Graph.loc) (key : string) : option Graph.loc :=
  n ← Graph.store g !! l; Graph.node_CalledBy n !! key.

(** What graph assembly keeps: a key of [Nodes] leads to the node of
    that name and to no other; the adjacency maps hold graph nodes under
    their own keys; and the two maps agree. *)
Record graphInv (g : Graph.CallGraph) : Prop := mkGraphInv {
  inv_names : forall k l, Graph.Nodes g !! k = Some l <-> nameOf g l = Some k;
  inv_calls : forall a kB b, callsOf g a kB = Some b -> Graph.Nodes g !! kB = Some b;
  inv_calledBy : forall b kA a, calledByOf g b kA = Some a -> Graph.Nodes g !! kA = Some a;
  inv_sym : forall kA kB a b,
    Graph.Nodes g !! kA = Some a -> Graph.Nodes g !! kB = Some b ->
    (callsOf g a kB = Some b <-> calledByOf g b kA = Some a)
}.

(** ** Induction on nodes, with the children of a node in hand *)

Section NodeInduction.
Variable P : Node -> Prop.
Hypothesis HIdent : forall name, P (Ident name).
Hypothesis HBasicLit : forall v, P (BasicLit v).
Hypothesis HSelectorExpr : forall x sel, P x -> P (SelectorExpr x sel).
Hypothesis HCallExpr : forall line fn args, P fn -> Forall P args -> P (CallExpr line fn args).
Hypothesis HFuncLit : forall text body, Forall P body -> P (FuncLit text body).
Hypothesis HStarExpr : forall x, P x -> P (StarExpr x).
Hypothesis HArrayType : forall e, P e -> P (ArrayType e).
Hypothesis HMapType : forall k v, P k -> P v -> P (MapType k v).
Hypothesis HFuncType : forall text, P (FuncType text).
Hypothesis HExprStmt : forall x, P x -> P (ExprStmt x).
Hypothesis HDeferStmt : forall c, P c -> P (DeferStmt c).
Hypothesis HGoStmt : forall c, P c -> P (GoStmt c).
Hypothesis HAssignStmt : forall lhs rhs, Forall P lhs -> Forall P rhs -> P (AssignStmt lhs rhs).
Hypothesis HBlockStmt : forall l, Forall P l -> P (BlockStmt l).
Hypothesis HOtherNode : forall text cs, Forall P cs -> P (OtherNode text cs).

Fixpoint Node_children_ind (n : Node) : P n :=
  let all := fix all (l : list Node) : Forall P l :=
    match l with
    | [] => @List.Forall_nil Node P
    | c :: r => @List.Forall_cons Node P c r (Node_children_ind c) (all r)
    end in
  match n with
  | Ident name => HIdent name
  | BasicLit v => HBasicLit v
  | SelectorExpr x sel => HSelectorExpr x sel (Node_children_ind x)
  | CallExpr line fn args => HCallExpr line fn args (Node_children_ind fn) (all args)
  | FuncLit text body => HFuncLit text body (all body)
  | StarExpr x => HStarExpr x (Node_children_ind x)
  | ArrayType e => HArrayType e (Node_children_ind e)
  | MapType k v => HMapType k v (Node_children_ind k) (Node_children_ind v)
  | FuncType text => HFuncType text
  | ExprStmt x => HExprStmt x (Node_children_ind x)
  | DeferStmt c => HDeferStmt c (Node_children_ind c)
  | GoStmt c => HGoStmt c (Node_children_ind c)
  | AssignStmt lhs rhs => HAssignStmt lhs rhs (all lhs) (all rhs)
  | BlockStmt l => HBlockStmt l (all l)
  | OtherNode text cs => HOtherNode text cs (all cs)
  end.
End NodeInduction.

(** ** Induction on a file-system tree, with the entries of a directory in hand *)

Section FsInduction.
Variable P : FsNode -> Prop.
Hypothesis HFile : forall data, P (FsFile data).
Hypothesis HDir : forall entries, Forall (fun e => P e.2) entries -> P (FsDir entries).

Fixpoint FsNode_entries_ind (n : FsNode) : P n :=
  match n with
  | FsFile data => HFile data
  | FsDir entries =>
      HDir entries
        ((fix all (es : list (string * FsNode)) : Forall (fun e => P e.2) es :=
            match es with
            | [] => @List.Forall_nil _ _
            | e :: r => @List.Forall_cons _ (fun e => P e.2) e r (FsNode_entries_ind e.2) (all r)
            end) entries)
  end.
End FsInduction.

(** ** A small project to run the code on

    The directory [/p] holds [go.mod] and four files of package [main]:
    [a.go] with [func A() { B() }], [b.go] with [func B() {}], [c.go]
    with [func Nested() { Outer(Inner1(), Inner2(x)) }] and [d.go] with
    [func (s *Server) Serve() { s.Handle(); obj.Method().Final() }].
    A file's content stands for its text and the name of a declaration
    for its printed form. *)

Module Demo.

Definition declA : FuncDecl :=
  mkFuncDecl None "A" [] None (Some [ExprStmt (CallExpr 2 (Ident "B") [])]) 2 4.

Definition declB : FuncDecl :=
  mkFuncDecl None "B" [] None (Some []) 2 2.

Definition nestedCall : Node :=
  CallExpr 3 (Ident "Outer")
    [CallExpr 3 (Ident "Inner1") []; CallExpr 3 (Ident "Inner2") [Ident "x"]].

Definition declNested : FuncDecl :=
  mkFuncDecl None "Nested" [] None (Some [ExprStmt nestedCall]) 2 4.

Definition methodCall : Node :=
  CallExpr 3 (SelectorExpr (Ident "s") "Handle") [].

Definition chainCall : Node :=
  CallExpr 4
    (SelectorExpr (CallExpr 4 (SelectorExpr (Ident "obj") "Method") []) "Final") [].

Definition declServe : FuncDecl :=
  mkFuncDecl (Some [mkField ["s"] (StarExpr (Ident "Server"))]) "Serve" [] None
    (Some [ExprStmt methodCall; ExprStmt chainCall]) 2 5.

(** Each file imports ["fmt"]. *)
Definition fileOf (fd : FuncDecl) : File :=
  mkFile "main" [mkImportSpec None (String quote ("fmt" +:+ String quote ""))] [FuncD fd].

Definition reparsed (name : string) : string :=
  "package main" +:+ String newline name.

Definition parse (src : string) : result File :=
  if decide (src = "A" \/ src = reparsed "A") then Ok (fileOf declA)
  else if decide (src = "B" \/ src = reparsed "B") then Ok (fileOf declB)
  else if decide (src = "C" \/ src = reparsed "Nested") then Ok (fileOf declNested)
  else if decide (src = "D" \/ src = reparsed "Serve") then Ok (fileOf declServe)
  else Err "expected 'package', found 'EOF'".

Definition goMod : string :=
  "module example.com/p" +:+ String newline ("go 1.22" +:+ String newline "").

Definition tree : FsNode :=
  FsDir [("p", FsDir [("a.go", FsFile "A"); ("b.go", FsFile "B");
                      ("c.go", FsFile "C"); ("d.go", FsFile "D");
                      ("go.mod", FsFile goMod)])].

Definition world : World :=
  mkWorld ["p"] (Ok ["p"]) tree parse (fun fd => Ok (fd_Name fd))
          (Ok ("fmt" +:+ String newline ("os" +:+ String newline ""))).

(** The same project when the printed form of [B] does not parse
    again. *)
Definition parseBroken (src : string) : result File :=
  if decide (src = reparsed "B") then Err "2:1: expected declaration"
  else parse src.

Definition worldBroken : World :=
  mkWorld ["p"] (Ok ["p"]) tree parseBroken (fun fd => Ok (fd_Name fd))
          (Ok ("fmt" +:+ String newline ("os" +:+ String newline ""))).

(** The same project after [b.go] was overwritten with text that does
    not parse. *)
Definition treeLater : FsNode :=
  FsDir [("p", FsDir [("a.go", FsFile "A"); ("b.go", FsFile "func");
                      ("c.go", FsFile "C"); ("d.go", FsFile "D");
                      ("go.mod", FsFile goMod)])].

Definition worldLater : World :=
  mkWorld ["p"] (Ok ["p"]) treeLater parse (fun fd => Ok (fd_Name fd))
          (Ok ("fmt" +:+ String newline ("os" +:+ String newline ""))).

Definition fiA : Project.FunctionInfo :=
  Project.mkFunctionInfo ["a.go"] "main" "A" "" [] [] 2 4.
Definition fiB : Project.FunctionInfo :=
  Project.mkFunctionInfo ["b.go"] "main" "B" "" [] [] 2 2.
Definition fiNested : Project.FunctionInfo :=
  Project.mkFunctionInfo ["c.go"] "main" "Nested" "" [] [] 2 4.
Definition fiServe : Project.FunctionInfo :=
  Project.mkFunctionInfo ["d.go"] "main" "Serve" "*Server" [] [] 2 5.

(** A function on lines 10 to 20 of [/a.go], with a body, and the only
    coverage block of that file: lines 25 to 30, hit 5 times. *)
Definition fn_10_20 : FuncDecl :=
  mkFuncDecl None "F" [] None (Some []) 10 20.

Definition block_25_30 : Coverage.CoverageBlock :=
  Coverage.mkCoverageBlock 25 1 30 2 5.

(** Two packages [x] and [y], each with a method [Run] on a type
    [Worker]. *)
Definition runX : Project.FunctionInfo :=
  Project.mkFunctionInfo ["x"; "worker.go"] "x" "Run" "Worker" [] [] 3 5.
Definition runY : Project.FunctionInfo :=
  Project.mkFunctionInfo ["y"; "worker.go"] "y" "Run" "Worker" [] [] 3 5.
End Demo.

(** * Properties *)

(** ** Coverage *)

Section CoverageFacts.
Import Coverage.

Lemma anyExecuted_spec (blocks : list CoverageBlock) :
  anyExecuted blocks = true <-> exists block, In block blocks /\ (Count block > 0)%Z.
Proof.
  induction blocks as [|b rest IH]; simpl.
  - split; [discriminate | intros (? & [] & _)].
  - case_bool_decide as Hb.
    + split; [|done]. intros _. exists b. auto.
    + rewrite IH. split.
      * intros (b' & Hin & Hc). exists b'. auto.
      * intros (b' & [<- | Hin] & Hc); [lia | exists b'; auto].
Qed.

Lemma exprToString_total (e : Node) : exists s, Indexer.exprToString e = Ok s.
Proof.
  induction e using Node_children_ind; simpl; eauto;
    repeat match goal with
    | IH : exists s, Indexer.exprToString _ = Ok s |- _ =>
        let s := fresh "s" in destruct IH as [s ->]
    end; simpl; eauto.
Qed.

Lemma extractFields_total (fields : list Field) (acc : list string) :
  exists ps, Indexer.extractFields fields acc = Ok ps.
Proof.
  revert acc. induction fields as [|fld rest IH]; intros acc; simpl; [eauto|].
  destruct (exprToString_total (field_Type fld)) as [s ->]. simpl.
  destruct (field_Names fld); apply IH.
Qed.

(** [isFunctionCovered] looks at the body and the hit counts only. *)
Lemma isFunctionCovered_spec (fn : FuncDecl) (blocks : list CoverageBlock) :
  isFunctionCovered fn blocks = true <->
  fd_Body fn <> None /\ exists block, In block blocks /\ (Count block > 0)%Z.
Proof.
  unfold isFunctionCovered. destruct (fd_Body fn).
  - rewrite anyExecuted_spec. split; [by intros H | by intros [_ H]].
  - split; [discriminate | by intros [H _]].
Qed.

(** C1, on the code: for the function spanning lines 10-20 and the
    single block 25-30 with hit count 5, no block overlaps the span of
    the function, yet [isFunctionCovered] answers [true] and
    [ListUntestedFunctions] does not report the function as
    untested. *)
Theorem C1_covered_without_overlap :
  (forall block, In block [Demo.block_25_30] -> ~ overlaps Demo.fn_10_20 block) /\
  isFunctionCovered Demo.fn_10_20 [Demo.block_25_30] = true /\
  ListUntestedFunctions_visit {[ "/a.go" := [Demo.block_25_30] ]} ["a.go"] ([], [])
    Demo.fn_10_20 = ([], []).
Proof.
  split; [|split].
  - intros block [<- | []]. unfold overlaps. simpl. lia.
  - reflexivity.
  - vm_compute. reflexivity.
Qed.

(** C10: a function declaration without a body is never covered,
    whatever the blocks of its file and their hit counts, and
    [ListUntestedFunctions] appends it to the untested functions, both
    when its file has blocks and when it has none. *)
Theorem C10_bodiless_untested
    (recv : option (list Field)) (name : string) (params : list Field)
    (results : option (list Field)) (pos end_ : nat)
    (blocks : list CoverageBlock)
    (coverageData : gmap string (list CoverageBlock)) (filePath : Path)
    (untestedFunctions : list Indexer.FunctionInfo) (log : list string) :
  let fn := mkFuncDecl recv name params results None pos end_ in
  isFunctionCovered fn blocks = false /\
  exists ps,
    Indexer.extractParameters fn = Ok ps /\
    ListUntestedFunctions_visit coverageData filePath (untestedFunctions, log) fn
      = (untestedFunctions ++ [untested filePath fn ps], log).
Proof.
  intros fn. split; [reflexivity|].
  destruct (extractFields_total params []) as [ps Hps].
  exists ps. split; [exact Hps|].
  unfold ListUntestedFunctions_visit, Indexer.extractParameters. simpl. rewrite Hps.
  destruct (coverageData !! path_str filePath); reflexivity.
Qed.
End CoverageFacts.

(** ** The walk of [ast.Inspect] *)

Section InspectFacts.
Context {S : Type} (f : Node -> S -> bool * S).

(** The inner loop of [Inspect] is the fold over the children. *)
Lemma Inspect_walkList (l : list Node) (s : S) :
  (fix walkList (l : list Node) (s : S) : S :=
     match l with
     | [] => s
     | c :: r => walkList r (Inspect f c s)
     end) l s = InspectList f l s.
Proof. revert s. induction l as [|c r IH]; intros s; simpl; [done | apply IH]. Qed.

Lemma InspectList_app (l1 l2 : list Node) (s : S) :
  InspectList f (l1 ++ l2) s = InspectList f l2 (InspectList f l1 s).
Proof. unfold InspectList. apply fold_left_app. Qed.
End InspectFacts.

Section InspectUnfold.
Context {S : Type} (f : Node -> S -> bool * S).

Lemma Inspect_unfold (n : Node) (s : S) :
  Inspect f n s =
    if (f n s).1 then InspectList f (children n) (f n s).2 else (f n s).2.
Proof.
  destruct n; simpl; destruct (f _ s) as [[] s1]; simpl;
    rewrite ?Inspect_walkList; try reflexivity.
  rewrite InspectList_app. reflexivity.
Qed.
End InspectUnfold.

(** ** Call extraction *)

Section ExtractFacts.
Import Project Functions.
Context (projectRoot : option Path) (filePath : list string) (imports : gset string).

Local Abbreviation visit := (collect_visit projectRoot filePath imports).
Local Abbreviation nested := (extractNestedCalls projectRoot filePath imports).

Lemma InspectList_collect (l : list Node) :
  Forall (fun n => forall calls, Inspect visit n calls = calls ++ nested n) l ->
  forall calls, InspectList visit l calls = calls ++ flat_map nested l.
Proof.
  induction 1 as [|n l Hn _ IH]; intros calls; simpl.
  - by rewrite app_nil_r.
  - unfold InspectList in *. simpl. rewrite Hn, IH. by rewrite app_assoc.
Qed.

(** The [ast.Inspect] with the callback of the source computes
    [extractNestedCalls]: the structural definition is the walk. *)
Lemma Inspect_collect (n : Node) (calls : list FunctionCallInfo) :
  Inspect visit n calls = calls ++ nested n.
Proof.
  revert calls. induction n using Node_children_ind; intros calls;
    rewrite Inspect_unfold; simpl;
    repeat match goal with
    | H : Forall _ _ |- _ => pose proof (InspectList_collect _ H); clear H
    end;
    rewrite ?InspectList_app; try done;
    try (unfold InspectList; simpl; rewrite ?app_nil_r; done).
  - unfold InspectList; simpl. by rewrite IHn1, IHn2, app_assoc.
  - repeat match goal with
    | H : forall calls, InspectList _ _ calls = _ |- _ => rewrite H; clear H
    end.
    by rewrite app_assoc.
Qed.
End ExtractFacts.

Section RecordFacts.
Import Project Functions.
Context (projectRoot : option Path) (filePath : list string) (imports : gset string).

Local Abbreviation nested := (extractNestedCalls projectRoot filePath imports).

Lemma allRecords_unfold (c : FunctionCallInfo) :
  allRecords c = c :: flat_map allRecords (Calls c).
Proof. by destruct c. Qed.

Lemma callInfo_fields (line : nat) (fun_ : Node) (args : list Node) :
  let c := extractCallInfo projectRoot filePath imports line fun_ args in
  (Function c, Package c, Receiver c) = getFunctionName fun_ imports /\
  Line c = line /\
  Calls c = flat_map nested args /\
  FullExpr c = printNode (CallExpr line fun_ args) /\
  Arguments_ c = map printNode args /\
  FilePath c = filepath_Join projectRoot filePath.
Proof.
  unfold extractCallInfo, callInfo.
  destruct (getFunctionName fun_ imports) as [[f p] r]. simpl. done.
Qed.

Lemma extractNestedCalls_call (line : nat) (fun_ : Node) (args : list Node) :
  nested (CallExpr line fun_ args) = [extractCallInfo projectRoot filePath imports line fun_ args].
Proof. reflexivity. Qed.

(** Package and receiver are never both set. *)
Lemma getFunctionName_oneQualifier (fun_ : Node) :
  (getFunctionName fun_ imports).1.2 = "" \/ (getFunctionName fun_ imports).2 = "".
Proof.
  destruct fun_ as [| |x sel| | | | | | | | | | | |]; simpl; auto.
  destruct x; simpl; auto. case_bool_decide; simpl; auto.
Qed.

Lemma records_of_children (cs : list Node) :
  Forall (fun a =>
            map (fun c => (Line c, FullExpr c)) (flat_map allRecords (nested a))
            = map callText (callsOutsideTargets a)) cs ->
  map (fun c => (Line c, FullExpr c)) (flat_map allRecords (flat_map nested cs))
  = map callText (flat_map callsOutsideTargets cs).
Proof.
  induction 1 as [|a cs Ha _ IH]; simpl; [done|].
  by rewrite flat_map_app, !map_app, Ha, IH.
Qed.

(** Each call expression outside the target expressions has its
    record, in the order of the source, and there is no other record. *)
Lemma records_are_callsOutsideTargets (n : Node) :
  map (fun c => (Line c, FullExpr c)) (flat_map allRecords (nested n))
  = map callText (callsOutsideTargets n).
Proof.
  induction n using Node_children_ind.
  4: {
    rewrite extractNestedCalls_call.
    cbn [flat_map callsOutsideTargets map].
    rewrite app_nil_r, allRecords_unfold. cbn [map].
    destruct (callInfo_fields line n args) as (_ & Hl & Hc & Hf & _).
    rewrite Hl, Hc, Hf. f_equal. by apply records_of_children. }
  all: simpl; rewrite ?flat_map_app, ?map_app;
    repeat match goal with
    | H : Forall _ _ |- _ => apply records_of_children in H; rewrite H; clear H
    end; congruence.
Qed.

Lemma oneQualifier_of_children (cs : list Node) :
  Forall (fun a => Forall oneQualifier (flat_map allRecords (nested a))) cs ->
  Forall oneQualifier (flat_map allRecords (flat_map nested cs)).
Proof.
  induction 1 as [|a cs Ha _ IH]; simpl; [constructor|].
  rewrite flat_map_app. by apply Forall_app.
Qed.

(** No record, at any depth, names both a package and a receiver. *)
Lemma records_oneQualifier (n : Node) :
  Forall oneQualifier (flat_map allRecords (nested n)).
Proof.
  induction n using Node_children_ind.
  4: {
    rewrite extractNestedCalls_call.
    cbn [flat_map]. rewrite app_nil_r, allRecords_unfold.
    destruct (callInfo_fields line n args) as (Hq & _ & Hc & _).
    rewrite Hc. constructor; [|by apply oneQualifier_of_children].
    unfold oneQualifier.
    destruct (getFunctionName_oneQualifier n) as [Hp | Hr];
      rewrite <- Hq in *; simpl in *; auto. }
  all: simpl; rewrite ?flat_map_app, ?Forall_app;
    repeat match goal with
    | H : Forall _ _ |- _ => apply oneQualifier_of_children in H
    end; repeat split; try done; constructor.
Qed.
End RecordFacts.

(** ** Import tables *)

(** The aliases of the import map of the indexer are the import names
    the call extraction collects. *)
Lemma dom_buildImportMap (file : File) :
  dom (Indexer.buildImportMap file) = Functions.collectImports file.
Proof.
  unfold Indexer.buildImportMap, Functions.collectImports.
  generalize (∅ : gmap string string) (∅ : gset string) (dom_empty_L (D := gset string) (M := gmap string) (A := string)).
  induction (file_Imports file) as [|imp imps IH]; intros m s Hdom; simpl; [done|].
  apply IH. rewrite dom_insert_L, Hdom. by destruct (imp_Name imp).
Qed.

(** ** Claims on call extraction *)

Section CallExtractionClaims.
Import Project Functions.

(** C5: a selector call [v.Fn(...)] whose [v] is a plain identifier and
    not an import name of the enclosing file is recorded by the call
    extraction as a method call: function [Fn], receiver text [v], no
    package; and the call analysis of the indexer, for which [v] is then
    no import alias either, records neither a function call nor an
    external for it. *)
Theorem C5_variable_selector_is_method_call
    (file : File) (projectRoot : option Path) (filePath : list string)
    (line : nat) (v fnName : string) (args : list Node)
    (internalFuncs : gmap string Indexer.loc) (stdPkgs : gmap string bool)
    (modulePath : string) (fn : Indexer.FunctionInfo) :
  (v ∉ collectImports file) ->
  let target := SelectorExpr (Ident v) fnName in
  let call := extractCallInfo projectRoot filePath (collectImports file) line target args in
  getFunctionName target (collectImports file) = (fnName, "", v) /\
  Function call = fnName /\ Receiver call = v /\ Package call = "" /\
  Indexer.analyzeFunctionCalls_visit internalFuncs (Indexer.buildImportMap file)
    stdPkgs modulePath (CallExpr line target args) fn = (true, fn).
Proof.
  intros Hv target call.
  assert (Hname : getFunctionName target (collectImports file) = (fnName, "", v)).
  { simpl. by rewrite bool_decide_eq_false_2. }
  split; [done|].
  destruct (callInfo_fields projectRoot filePath (collectImports file) line target args)
    as (Hq & _).
  fold call in Hq. rewrite Hname in Hq. injection Hq as Hf Hp Hr.
  repeat split; try done.
  simpl.
  assert (Indexer.buildImportMap file !! v = None) as ->; [|done].
  apply not_elem_of_dom. by rewrite dom_buildImportMap.
Qed.

Lemma C5_variable_selector_witness :
  let file := Demo.fileOf Demo.declServe in
  let call := extractCallInfo None ["d.go"] (collectImports file) 3
                (SelectorExpr (Ident "s") "Handle") [] in
  ("s" ∉ collectImports file) /\ Receiver call = "s" /\ Package call = "".
Proof.
  intros file call.
  assert (Hs : "s" ∉ collectImports file)
    by (apply (bool_decide_unpack _); vm_compute; exact I).
  split; [exact Hs|].
  pose proof (C5_variable_selector_is_method_call file None ["d.go"] 3 "s" "Handle" []
                ∅ ∅ "example.com/p"
                (Indexer.mkFunctionInfo ["p"; "d.go"] "Serve" 2 "main" [] [] [] []) Hs)
    as (_ & _ & Hr & Hp & _).
  exact (conj Hr Hp).
Defined.

(** C6: for a function whose body is the statement
    [outer(inner1(), inner2(x))], call extraction returns exactly one
    top-level call site, that of the outer call, and it holds exactly
    two nested call sites, [inner1] and [inner2], which hold none.  The
    target [outer] is any expression: whatever calls it contains, they
    add no entry, so the target is not descended into. *)
Theorem C6_nested_calls_once
    (W : World) (functionCode : string) (fi : FunctionInfo) (projectRoot : option Path)
    (file : File) (fd : FuncDecl) (line l1 l2 : nat)
    (outer : Node) (inner1 inner2 x : string) :
  RelativeFilePath fi <> [] ->
  parser_Parse W ("package " +:+ PkgName fi +:+ String newline functionCode) = Ok file ->
  findDecl fi (file_Decls file) = Some fd ->
  fd_Body fd = Some [ExprStmt (CallExpr line outer
                       [CallExpr l1 (Ident inner1) []; CallExpr l2 (Ident inner2) [Ident x]])] ->
  exists top n1 n2,
    GetFunctionCalls W functionCode fi projectRoot = Returns (Ok [top]) /\
    (Function top, Package top, Receiver top) = getFunctionName outer (collectImports file) /\
    Calls top = [n1; n2] /\
    (Function n1, Package n1, Receiver n1) = (inner1, "", "") /\ Calls n1 = [] /\
    (Function n2, Package n2, Receiver n2) = (inner2, "", "") /\ Calls n2 = [] /\
    Arguments_ n2 = [x].
Proof.
  intros Hrel Hparse Hfind Hbody.
  set (imports := collectImports file).
  exists (extractCallInfo projectRoot (RelativeFilePath fi) imports line outer
            [CallExpr l1 (Ident inner1) []; CallExpr l2 (Ident inner2) [Ident x]]),
         (extractCallInfo projectRoot (RelativeFilePath fi) imports l1 (Ident inner1) []),
         (extractCallInfo projectRoot (RelativeFilePath fi) imports l2 (Ident inner2) [Ident x]).
  split.
  - unfold GetFunctionCalls, GetFunctionCalls_src.
    destruct (RelativeFilePath fi) as [|c r] eqn:Hr; [done|].
    rewrite Hparse, Hfind, Hbody. unfold InspectBody.
    rewrite Inspect_collect. reflexivity.
  - destruct (callInfo_fields projectRoot (RelativeFilePath fi) imports line outer
                [CallExpr l1 (Ident inner1) []; CallExpr l2 (Ident inner2) [Ident x]])
      as (Hq & _ & Hc & _).
    split; [exact Hq|]. split; [exact Hc|]. repeat split; reflexivity.
Qed.

Lemma C6_nested_calls_witness :
  exists top n1 n2,
    GetFunctionCalls Demo.world "Nested" Demo.fiNested (Some ["p"]) = Returns (Ok [top]) /\
    Function top = "Outer" /\ Calls top = [n1; n2] /\
    Function n1 = "Inner1" /\ Function n2 = "Inner2".
Proof.
  destruct (C6_nested_calls_once Demo.world "Nested" Demo.fiNested (Some ["p"])
              (Demo.fileOf Demo.declNested) Demo.declNested 3 3 3
              (Ident "Outer") "Inner1" "Inner2" "x")
    as (top & n1 & n2 & Hrun & Htop & Hcalls & Hn1 & _ & Hn2 & _).
  - discriminate.
  - reflexivity.
  - reflexivity.
  - reflexivity.
  - exists top, n1, n2. simpl in Htop.
    injection Htop as Ht _ _. injection Hn1 as H1 _ _. injection Hn2 as H2 _ _.
    exact (conj Hrun (conj Ht (conj Hcalls (conj H1 H2)))).
Defined.


End CallExtractionClaims.

(** ** The walk of [filepath.Walk] *)

Section WalkFacts.
Context {S : Type} (fn : Path -> option FsNode -> S -> WalkVerdict * S).
Context (P : S -> Prop) (Q : WalkVerdict -> Prop).
Hypothesis Q_nil : Q WalkNil.
Hypothesis fn_keeps : forall path info s, P s -> Q (fn path info s).1 /\ P (fn path info s).2.

(** What every call of the callback keeps, the walk keeps. *)
Lemma walk_keeps (info : FsNode) :
  forall path s, P s -> Q (walk fn path info s).1 /\ P (walk fn path info s).2.
Proof.
  induction info as [data | entries IH] using FsNode_entries_ind; intros path s Hs; simpl.
  - by apply fn_keeps.
  - destruct (fn_keeps path (Some (FsDir entries)) s Hs) as [Hq Hp].
    destruct (fn path (Some (FsDir entries)) s) as [[| |e] s1]; simpl in *; [|done..].
    clear Hq Hs s. revert s1 Hp.
    induction IH as [|[name child] entries Hchild _ IHentries]; intros s1 Hp; [done|].
    simpl in Hchild.
    destruct (Hchild (path ++ [name]) s1 Hp) as [Hq2 Hp2].
    destruct (walk fn (path ++ [name]) child s1) as [[| |e] s2]; simpl in *.
    + by apply IHentries.
    + destruct (IsDir child); [by apply IHentries | done].
    + done.
Qed.

Lemma filepath_Walk_keeps (W : World) (root : Path) (s : S) :
  P s ->
  P (filepath_Walk fn W root s).2 /\
  ((forall e, ~ Q (WalkErr e)) -> (filepath_Walk fn W root s).1 = None).
Proof.
  intros Hs. unfold filepath_Walk.
  destruct (fs_lookup (fs_root W) root) as [info|].
  - destruct (walk_keeps info root s Hs) as [Hq Hp].
    destruct (walk fn root info s) as [[| |e] s']; simpl in *; split; try done.
    intros Hno. by destruct (Hno e).
  - destruct (fn_keeps root None s Hs) as [Hq Hp].
    destruct (fn root None s) as [[| |e] s']; simpl in *; split; try done.
    intros Hno. by destruct (Hno e).
Qed.
End WalkFacts.

(** ** The indexer *)

Section IndexerFacts.
Import Indexer.

Lemma lookupBool_builtInFuncs (name : string) :
  lookupBool builtInFuncs name = true <-> In name builtInNames.
Proof.
  unfold lookupBool, builtInFuncs, builtInNames. split.
  - destruct (list_to_map _ !! name) as [b|] eqn:E; simpl; [|done].
    intros _. apply elem_of_list_to_map_2 in E.
    apply list_elem_of_In in E. simpl in E.
    repeat (destruct E as [E|E]; [injection E as <- _; simpl; tauto|]). done.
  - simpl. intros H.
    repeat (destruct H as [<-|H]; [vm_compute; reflexivity|]). done.
Qed.

Lemma firstPassInv_logf (st : IndexState) (msg : string) :
  firstPassInv st -> firstPassInv (logf st msg).
Proof. done. Qed.

Lemma firstPassInv_decl (path : Path) (pkgName : string) (st : IndexState) (fn : FuncDecl) :
  firstPassInv st -> firstPassInv (ListFunctions_decl path pkgName st fn).
Proof.
  intros [Hreg Hun]. unfold ListFunctions_decl.
  destruct (extractParameters fn) as [params|e]; [|done].
  destruct (extractReturns fn) as [returns|e]; [|done].
  split.
  - intros key d. simpl. rewrite lookup_insert. case_decide as Hk.
    + intros [= <-]. eexists. split; [apply list_lookup_middle; done|]. by subst.
    + intros Hd. destruct (Hreg key d Hd) as (fi & Hfi & Hkey).
      exists fi. split; [|done]. by apply lookup_app_l_Some.
  - simpl. apply Forall_app. split; [done|]. by repeat constructor.
Qed.

Lemma firstPassInv_decls (path : Path) (pkgName : string) (decls : list FuncDecl)
    (st : IndexState) :
  firstPassInv st -> firstPassInv (fold_left (ListFunctions_decl path pkgName) decls st).
Proof.
  revert st. induction decls as [|fn decls IH]; intros st Hst; simpl; [done|].
  by apply IH, firstPassInv_decl.
Qed.

Lemma firstPassInv_walkFn (W : World) (path : Path) (info : option FsNode) (st : IndexState) :
  firstPassInv st ->
  (forall e, (ListFunctions_walkFn W path info st).1 <> WalkErr e) /\
  firstPassInv (ListFunctions_walkFn W path info st).2.
Proof.
  intros Hst. unfold ListFunctions_walkFn.
  destruct info as [node|]; [|done].
  repeat case_match; simpl; split; try done.
  by apply firstPassInv_decls.
Qed.

Lemma WalkVerdict_nil_not_err (e : string) : WalkNil <> WalkErr e.
Proof. discriminate. Qed.

(** The first pass ends without an error and keeps the invariant. *)
Lemma firstPass_ok (W : World) (dir : Path) :
  let r := filepath_Walk (ListFunctions_walkFn W) W dir (mkIndexState [] ∅ []) in
  r.1 = None /\ firstPassInv r.2.
Proof.
  intros r.
  assert (Hinit : firstPassInv (mkIndexState [] ∅ [])).
  { split; [|by constructor]. intros key d. simpl. by rewrite lookup_empty. }
  destruct (filepath_Walk_keeps (ListFunctions_walkFn W) firstPassInv
              (fun v => forall e, v <> WalkErr e)
              WalkVerdict_nil_not_err
              (firstPassInv_walkFn W) W dir _ Hinit) as [Hinv Hnone].
  split; [|done]. apply Hnone. intros e He. by apply (He e).
Qed.


End IndexerFacts.

(** ** The second pass of the indexer and graph assembly on errors *)

Section ErrorFacts.
Import Indexer.

(** The second pass goes through all the functions unless an analysis
    panics: a function whose analysis fails stays as it was and the
    failure is logged, every other function is replaced by its
    analysis. *)
Lemma ListFunctions_analyze_spec (W : World) (internalFuncs : gmap string loc)
    (stdPkgs : gmap string bool) (modulePath : string) (todo : list FunctionInfo) :
  forall done log,
    (forall fn, In fn todo ->
                analyzeFunctionCalls W fn internalFuncs stdPkgs modulePath <> Panics) ->
    exists done' log',
      ListFunctions_analyze W todo done internalFuncs stdPkgs modulePath log
        = Some (done ++ done', log ++ log') /\
      length done' = length todo /\
      forall i fn, todo !! i = Some fn ->
        match analyzeFunctionCalls W fn internalFuncs stdPkgs modulePath with
        | Returns (Ok fn') => done' !! i = Some fn'
        | Returns (Err e) => done' !! i = Some fn /\ In (analysisError fn e) log'
        | Panics => False
        end.
Proof.
  induction todo as [|fn todo IH]; intros done log Hnp; simpl.
  - exists [], []. rewrite !app_nil_r. split; [done|]. split; [done|].
    intros i fn Hi. done.
  - assert (Hrest : forall fn', In fn' todo ->
              analyzeFunctionCalls W fn' internalFuncs stdPkgs modulePath <> Panics)
      by (intros fn' Hin; apply Hnp; by right).
    pose proof (Hnp fn (or_introl eq_refl)) as Hfn.
    destruct (analyzeFunctionCalls W fn internalFuncs stdPkgs modulePath)
      as [[fn'|e]|] eqn:Han; [| |done].
    + destruct (IH (done ++ [fn']) log Hrest) as (done' & log' & Hrun & Hlen & Hall).
      exists (fn' :: done'), log'. rewrite Hrun, <- app_assoc. simpl.
      split; [done|]. split; [by rewrite Hlen|].
      intros [|i] fn0 Hi; simpl in Hi.
      * injection Hi as <-. by rewrite Han.
      * specialize (Hall i fn0 Hi). by destruct (analyzeFunctionCalls W fn0 _ _ _) as [[|]|].
    + destruct (IH (done ++ [fn]) (log ++ [analysisError fn e]) Hrest)
        as (done' & log' & Hrun & Hlen & Hall).
      exists (fn :: done'), (analysisError fn e :: log').
      unfold analysisError in *. rewrite Hrun, <- !app_assoc. simpl.
      split; [done|]. split; [by rewrite Hlen|].
      intros [|i] fn0 Hi; simpl in Hi.
      * injection Hi as <-. rewrite Han. split; [done | by left].
      * specialize (Hall i fn0 Hi).
        destruct (analyzeFunctionCalls W fn0 _ _ _) as [[|e0]|]; try done.
        destruct Hall as [Hd Hl]. split; [done | by right].
Qed.

(** Graph assembly returns a graph only if the text of every function
    was found and its calls were extracted. *)
Lemma BuildCallGraph_edges_needs_all (W : World) (projectRoot : option Path)
    (functions : list Project.FunctionInfo) :
  forall g g',
    Graph.BuildCallGraph_edges W functions projectRoot g = Returns (Ok g') ->
    forall fi, In fi functions ->
      exists code calls,
        Project.GetFunctionWithComments W fi projectRoot = Ok code /\
        Functions.GetFunctionCalls W code fi projectRoot = Returns (Ok calls).
Proof.
  induction functions as [|fi0 rest IH]; intros g g' Hrun fi Hin; [done|].
  simpl in Hrun.
  destruct (Project.GetFunctionWithComments W fi0 projectRoot) as [code|e] eqn:Hcode;
    [|done].
  destruct (Functions.GetFunctionCalls W code fi0 projectRoot) as [[calls|e]|] eqn:Hcalls;
    [|done..].
  destruct (Graph.addEdges _ _ g calls) as [g1|]; [|done].
  destruct Hin as [<- | Hin].
  - by exists code, calls.
  - by eapply IH.
Qed.



End ErrorFacts.

(** ** The module manifest *)

Section StringFacts.

Lemma append_nil_r (s : string) : s +:+ "" = s.
Proof.
  induction s as [|a s IH]; [reflexivity|].
  change (String a s +:+ "") with (String a (s +:+ "")). by rewrite IH.
Qed.

Lemma rev_app_app (s t u : string) :
  String.rev_app (String.rev_app s t) u = String.rev_app t (s +:+ u).
Proof.
  revert t u. induction s as [|a s IH]; intros t u; [reflexivity|].
  change (String.rev_app (String a s) t) with (String.rev_app s (String a t)).
  rewrite IH. reflexivity.
Qed.

Lemma string_rev_involutive (s : string) : String.rev (String.rev s) = s.
Proof.
  unfold String.rev. rewrite rev_app_app. simpl. apply append_nil_r.
Qed.

(** A run of characters without white space is one word. *)
Lemma words_go_noSpace (p acc : string) :
  noSpace p = true ->
  String.words_go (Some acc) p = [String.rev (String.rev_app p acc)].
Proof.
  revert acc. induction p as [|a p IH]; intros acc Hp; simpl in *; [done|].
  apply andb_true_iff in Hp as [Ha Hp].
  destruct (Ascii.is_space a); [done|]. simpl. by apply IH.
Qed.

Lemma words_noSpace (p : string) :
  p <> "" -> noSpace p = true -> String.words p = [p].
Proof.
  intros Hne Hp. destruct p as [|a p]; [done|].
  unfold String.words. simpl in *.
  apply andb_true_iff in Hp as [Ha Hp].
  destruct (Ascii.is_space a); [done|]. simpl.
  rewrite words_go_noSpace by done.
  change (String.rev_app p (String a "")) with (String.rev_app (String a p) "").
  fold (String.rev (String a p)). by rewrite string_rev_involutive.
Qed.

Lemma Fields_module_line (p : string) :
  p <> "" -> noSpace p = true -> Fields ("module " +:+ p) = ["module"; p].
Proof.
  intros Hne Hp. unfold Fields, String.words. simpl.
  change (String.words_go None p) with (String.words p).
  by rewrite words_noSpace.
Qed.

Lemma findModuleLine_declared (before after : list string) (p : string) :
  p <> "" -> noSpace p = true ->
  Forall (fun line => HasPrefix line "module " = false) before ->
  Indexer.findModuleLine (before ++ ("module " +:+ p) :: after) = Some p.
Proof.
  intros Hne Hp. induction 1 as [|line before Hline _ IH].
  - change (Indexer.findModuleLine ([] ++ ("module " +:+ p) :: after))
      with (if HasPrefix ("module " +:+ p) "module " then
              match Fields ("module " +:+ p) with
              | _ :: p' :: _ => Some p'
              | _ => Indexer.findModuleLine after
              end
            else Indexer.findModuleLine after).
    rewrite Fields_module_line by done. by destruct p.
  - change (Indexer.findModuleLine ((line :: before) ++ ("module " +:+ p) :: after))
      with (if HasPrefix line "module " then
              match Fields line with
              | _ :: p' :: _ => Some p'
              | _ => Indexer.findModuleLine (before ++ ("module " +:+ p) :: after)
              end
            else Indexer.findModuleLine (before ++ ("module " +:+ p) :: after)).
    by rewrite Hline.
Qed.
End StringFacts.

Section ManifestFacts.
Import Indexer.
Context (W : World).

Lemma getModulePath_from_unfold (rdir : list string) :
  getModulePath_from W rdir =
    if os_Stat W (rev rdir ++ ["go.mod"]) then getModulePath_read W (rev rdir ++ ["go.mod"])
    else match rdir with
         | [] => Err "go.mod not found in any parent directories"
         | _ :: parent => getModulePath_from W parent
         end.
Proof. by destruct rdir. Qed.

(** The loop of the source: look for the manifest in [dir], else go on
    with [filepath.Dir dir] unless that is [dir] itself. *)
Lemma getModulePath_loop (dir : Path) :
  getModulePath W dir =
    if os_Stat W (dir ++ ["go.mod"]) then getModulePath_read W (dir ++ ["go.mod"])
    else if decide (filepath_Dir dir = dir)
         then Err "go.mod not found in any parent directories"
         else getModulePath W (filepath_Dir dir).
Proof.
  unfold getModulePath. rewrite getModulePath_from_unfold, rev_involutive.
  destruct (os_Stat W (dir ++ ["go.mod"])); [done|].
  destruct dir as [|c dir _] using rev_ind; [done|].
  rewrite rev_app_distr. simpl. unfold filepath_Dir. rewrite removelast_last.
  case_decide as Heq; [|done].
  apply (f_equal length) in Heq. rewrite length_app in Heq. simpl in Heq. lia.
Qed.

Lemma getModulePath_from_climb (rdir : list string) (c : string) :
  os_Stat W (rev (c :: rdir) ++ ["go.mod"]) = false ->
  getModulePath_from W (c :: rdir) = getModulePath_from W rdir.
Proof. intros Hstat. by rewrite getModulePath_from_unfold, Hstat. Qed.

(** Directories without a manifest are climbed over. *)
Lemma getModulePath_from_skip (rbelow ranc : list string) :
  (forall s k, rbelow = k ++ s -> s <> [] ->
               os_Stat W (rev (s ++ ranc) ++ ["go.mod"]) = false) ->
  getModulePath_from W (rbelow ++ ranc) = getModulePath_from W ranc.
Proof.
  induction rbelow as [|c rbelow IH]; intros Hno; [done|].
  change ((c :: rbelow) ++ ranc) with (c :: (rbelow ++ ranc)).
  rewrite getModulePath_from_climb.
  - apply IH. intros s k -> Hs. by apply (Hno s (c :: k)).
  - by apply (Hno (c :: rbelow) []).
Qed.

Lemma getModulePath_from_none (rdir : list string) :
  (forall s k, rdir = k ++ s -> os_Stat W (rev s ++ ["go.mod"]) = false) ->
  getModulePath_from W rdir = Err "go.mod not found in any parent directories".
Proof.
  intros Hno.
  rewrite <- (app_nil_r rdir), getModulePath_from_skip.
  - pose proof (Hno [] rdir ltac:(by rewrite app_nil_r)) as Hroot.
    simpl in *. by rewrite Hroot.
  - intros s k -> _. rewrite app_nil_r. by apply (Hno s k).
Qed.

Lemma getModulePath_from_here (rdir : list string) (data p : string) :
  fs_lookup (fs_root W) (rev rdir ++ ["go.mod"]) = Some (FsFile data) ->
  findModuleLine (Split newline data) = Some p ->
  getModulePath_from W rdir = Ok p.
Proof.
  intros Hfile Hline.
  assert (Hstat : os_Stat W (rev rdir ++ ["go.mod"]) = true).
  { unfold os_Stat. apply bool_decide_eq_true_2. by rewrite Hfile. }
  assert (Hread : os_ReadFile W (rev rdir ++ ["go.mod"]) = Ok data).
  { unfold os_ReadFile. by rewrite Hfile. }
  rewrite getModulePath_from_unfold, Hstat. unfold getModulePath_read.
  by rewrite Hread, Hline.
Qed.
End ManifestFacts.

Section ManifestClaim.
Import Indexer.


End ManifestClaim.

(** ** Graph assembly *)

Section GraphFacts.
Import Project Functions Graph.

Lemma graphInv_empty : graphInv (mkCallGraph [] ∅).
Proof.
  split; unfold nameOf, callsOf, calledByOf; simpl.
  - intros k l. rewrite lookup_empty. by destruct l.
  - intros a kB b. by destruct a.
  - intros b kA a. by destruct b.
  - intros kA kB a b. rewrite lookup_empty. done.
Qed.

(** A location with a name is a location of the store. *)
Lemma nameOf_Some (g : CallGraph) (l : loc) (k : string) :
  nameOf g l = Some k -> l < length (store g).
Proof.
  unfold nameOf. intros H.
  destruct (store g !! l) as [n|] eqn:E; [|done].
  by apply lookup_lt_Some in E.
Qed.

Lemma callsOf_Some (g : CallGraph) (l : loc) (k : string) (t : loc) :
  callsOf g l k = Some t -> l < length (store g).
Proof.
  unfold callsOf. intros H.
  destruct (store g !! l) as [n|] eqn:E; [|done].
  by apply lookup_lt_Some in E.
Qed.

Lemma calledByOf_Some (g : CallGraph) (l : loc) (k : string) (t : loc) :
  calledByOf g l k = Some t -> l < length (store g).
Proof.
  unfold calledByOf. intros H.
  destruct (store g !! l) as [n|] eqn:E; [|done].
  by apply lookup_lt_Some in E.
Qed.

Lemma ensureNode_old (name : string) (g : CallGraph) (k : string) (l : loc) :
  Nodes g !! k = Some l -> Nodes (ensureNode name g) !! k = Some l.
Proof.
  intros Hk. unfold ensureNode. destruct (Nodes g !! name) eqn:Hn; [done|].
  simpl. rewrite lookup_insert_ne; [done|]. intros ->. congruence.
Qed.

Lemma ensureNode_has (name : string) (g : CallGraph) :
  is_Some (Nodes (ensureNode name g) !! name).
Proof.
  unfold ensureNode. destruct (Nodes g !! name) eqn:Hn; [by rewrite Hn|].
  simpl. rewrite lookup_insert_eq. eauto.
Qed.

Lemma ensureNode_inv (name : string) (g : CallGraph) :
  graphInv g -> graphInv (ensureNode name g).
Proof.
  intros [HN HC HB HS]. unfold ensureNode.
  destruct (Nodes g !! name) eqn:Hn; [by split|].
  assert (Hold : forall l k, nameOf g l = Some k -> k <> name).
  { intros l k Hl ->. apply HN in Hl. congruence. }
  assert (Hname : forall l,
    nameOf (mkCallGraph (store g ++ [mkFunctionNode name ∅ ∅])
                        (<[name := length (store g)]> (Nodes g))) l
    = if decide (l = length (store g)) then Some name else nameOf g l).
  { intros l. unfold nameOf. simpl. case_decide as Hl.
    - subst l. by rewrite list_lookup_middle.
    - destruct (decide (l < length (store g))) as [Hlt|Hge].
      + by rewrite lookup_app_l.
      + rewrite !lookup_ge_None_2; [done | lia | rewrite length_app; simpl; lia]. }
  assert (Hcalls : forall l k,
    callsOf (mkCallGraph (store g ++ [mkFunctionNode name ∅ ∅])
                         (<[name := length (store g)]> (Nodes g))) l k
    = callsOf g l k).
  { intros l k. unfold callsOf. simpl.
    destruct (decide (l < length (store g))) as [Hlt|Hge].
    - by rewrite lookup_app_l.
    - destruct (decide (l = length (store g))) as [->|Hne].
      + rewrite list_lookup_middle by done. simpl.
        by rewrite lookup_empty, lookup_ge_None_2 by lia.
      + rewrite !lookup_ge_None_2; [done | lia | rewrite length_app; simpl; lia]. }
  assert (HcalledBy : forall l k,
    calledByOf (mkCallGraph (store g ++ [mkFunctionNode name ∅ ∅])
                            (<[name := length (store g)]> (Nodes g))) l k
    = calledByOf g l k).
  { intros l k. unfold calledByOf. simpl.
    destruct (decide (l < length (store g))) as [Hlt|Hge].
    - by rewrite lookup_app_l.
    - destruct (decide (l = length (store g))) as [->|Hne].
      + rewrite list_lookup_middle by done. simpl.
        by rewrite lookup_empty, lookup_ge_None_2 by lia.
      + rewrite !lookup_ge_None_2; [done | lia | rewrite length_app; simpl; lia]. }
  split.
  - intros k l. rewrite Hname. simpl. rewrite lookup_insert. case_decide as Hk.
    + subst k. case_decide as Hl; [subst; done|].
      split; [intros [= <-]; done|]. intros Hl'. by destruct (Hold l name Hl').
    + case_decide as Hl.
      * subst l. split; [|intros [= <-]; done].
        intros Hk'. apply HN, nameOf_Some in Hk'. lia.
      * apply HN.
  - intros a kB b. rewrite Hcalls. intros Hc. simpl.
    apply HC in Hc. rewrite lookup_insert_ne; [done|]. intros <-. congruence.
  - intros b kA a. rewrite HcalledBy. intros Hc. simpl.
    apply HB in Hc. rewrite lookup_insert_ne; [done|]. intros <-. congruence.
  - intros kA kB a b. rewrite Hcalls, HcalledBy. simpl.
    rewrite !lookup_insert. repeat case_decide; subst; intros Ha Hb.
    + split; intros Hx; [apply HC in Hx | apply HB in Hx]; congruence.
    + injection Ha as <-.
      split; intros Hx; [apply callsOf_Some in Hx; lia | apply HB in Hx; congruence].
    + injection Hb as <-.
      split; intros Hx; [apply HC in Hx; congruence | apply calledByOf_Some in Hx; lia].
    + by apply HS.
Qed.

(** What an edge insertion changes, seen from the nodes. *)
Lemma addEdge_observed (f name : string) (node c : loc) (g1 : CallGraph)
    (nn nc : FunctionNode) :
  store g1 !! node = Some nn ->
  store g1 !! c = Some nc ->
  let g' := mkCallGraph
              (alter (setCalledBy f node) c (alter (setCalls name c) node (store g1)))
              (Nodes g1) in
  (forall l, nameOf g' l = nameOf g1 l) /\
  (forall l k, callsOf g' l k
               = if decide (l = node /\ k = name) then Some c else callsOf g1 l k) /\
  (forall l k, calledByOf g' l k
               = if decide (l = c /\ k = f) then Some node else calledByOf g1 l k).
Proof.
  intros Hnn Hnc g'. subst g'. unfold nameOf, callsOf, calledByOf. simpl.
  split; [|split].
  - intros l. rewrite !list_lookup_alter.
    repeat case_decide; subst; rewrite ?Hnn, ?Hnc; simpl; try done.
    all: by destruct (store g1 !! l).
  - intros l k. rewrite !list_lookup_alter.
    repeat case_decide; subst; rewrite ?Hnn, ?Hnc; simpl;
      rewrite ?lookup_insert; repeat case_decide; subst; try done;
      try (by destruct (store g1 !! l)); try (intuition congruence).
  - intros l k. rewrite !list_lookup_alter.
    repeat case_decide; subst; rewrite ?Hnn, ?Hnc; simpl;
      rewrite ?lookup_insert; repeat case_decide; subst; try done;
      try (by destruct (store g1 !! l)); try (intuition congruence).
Qed.

(** An edge insertion succeeds on a graph that has the source node,
    keeps the invariant and the nodes there were. *)
Lemma addEdge_inv (f : string) (node : loc) (g : CallGraph) (call : FunctionCallInfo) :
  graphInv g -> Nodes g !! f = Some node ->
  exists g',
    addEdge f (Some node) g call = Some g' /\ graphInv g' /\
    (forall k l, Nodes g !! k = Some l -> Nodes g' !! k = Some l).
Proof.
  intros Hg Hf. unfold addEdge.
  set (name := calledFuncName call).
  pose proof (ensureNode_inv name g Hg) as [HN HC HB HS].
  pose proof (ensureNode_old name g) as Hold.
  destruct (ensureNode_has name g) as [c Hc].
  set (g1 := ensureNode name g) in *.
  rewrite Hc.
  assert (Hf1 : Nodes g1 !! f = Some node) by by apply Hold.
  assert (Hnn : exists nn, store g1 !! node = Some nn).
  { apply HN in Hf1. unfold nameOf in Hf1. destruct (store g1 !! node); [eauto|done]. }
  assert (Hnc : exists nc, store g1 !! c = Some nc).
  { apply HN in Hc. unfold nameOf in Hc. destruct (store g1 !! c); [eauto|done]. }
  destruct Hnn as [nn Hnn], Hnc as [nc Hnc].
  destruct (addEdge_observed f name node c g1 nn nc Hnn Hnc) as (Hname & Hcalls & HcalledBy).
  eexists. split; [reflexivity|]. split; [|done].
  split.
  - intros k l. rewrite Hname. apply HN.
  - intros a kB b. rewrite Hcalls. simpl. case_decide as Hd.
    + destruct Hd as [-> ->]. by intros [= <-].
    + apply HC.
  - intros b kA a. rewrite HcalledBy. simpl. case_decide as Hd.
    + destruct Hd as [-> ->]. by intros [= <-].
    + apply HB.
  - intros kA kB a b Ha Hb. simpl in Ha, Hb. rewrite Hcalls, HcalledBy.
    assert (Hnode : a = node <-> kA = f).
    { split; intros ->.
      - apply HN in Ha. apply HN in Hf1. congruence.
      - congruence. }
    assert (Hcalled : b = c <-> kB = name).
    { split; intros ->.
      - apply HN in Hb. apply HN in Hc. congruence.
      - congruence. }
    repeat case_decide.
    + intuition congruence.
    + intuition congruence.
    + intuition congruence.
    + by apply HS.
Qed.

Lemma addEdges_inv (f : string) (node : option loc) (calls : list FunctionCallInfo) :
  forall g g',
    graphInv g -> Nodes g !! f = node ->
    addEdges f node g calls = Some g' -> graphInv g'.
Proof.
  induction calls as [|call calls IH]; intros g g' Hg Hf Hrun; simpl in Hrun.
  - by injection Hrun as <-.
  - destruct node as [node|]; [|done].
    destruct (addEdge_inv f node g call Hg Hf) as (g1 & Hrun1 & Hg1 & Hkeep).
    rewrite Hrun1 in Hrun. apply (IH g1 g' Hg1); [by apply Hkeep | done].
Qed.

Lemma BuildCallGraph_nodes_inv (functions : list FunctionInfo) :
  graphInv (BuildCallGraph_nodes functions).
Proof.
  unfold BuildCallGraph_nodes.
  generalize graphInv_empty. generalize (mkCallGraph [] ∅).
  induction functions as [|fi functions IH]; intros g Hg; simpl; [done|].
  by apply IH, ensureNode_inv.
Qed.

Lemma BuildCallGraph_edges_inv (W : World) (projectRoot : option Path)
    (functions : list FunctionInfo) :
  forall g g',
    graphInv g ->
    BuildCallGraph_edges W functions projectRoot g = Returns (Ok g') -> graphInv g'.
Proof.
  induction functions as [|fi functions IH]; intros g g' Hg Hrun; simpl in Hrun.
  - by injection Hrun as <-.
  - destruct (GetFunctionWithComments W fi projectRoot) as [code|e]; [|done].
    destruct (GetFunctionCalls W code fi projectRoot) as [[calls|e]|]; [|done..].
    destruct (addEdges _ _ g calls) as [g1|] eqn:Hedges; [|done].
    apply (IH g1 g'); [|done].
    by eapply addEdges_inv.
Qed.

(** C9: in every graph [BuildCallGraph] returns, for nodes [a] and [b]
    held under the keys [kA] and [kB], the [Calls] map of [a] holds [b]
    under [kB] exactly when the [CalledBy] map of [b] holds [a] under
    [kA]. *)
Theorem C9_calls_calledBy_symmetric
    (W : World) (functions : list FunctionInfo) (projectRoot : option Path)
    (g : CallGraph) :
  BuildCallGraph W functions projectRoot = Returns (Ok g) ->
  forall kA kB a b,
    Nodes g !! kA = Some a -> Nodes g !! kB = Some b ->
    (callsOf g a kB = Some b <-> calledByOf g b kA = Some a).
Proof.
  intros Hrun.
  apply (inv_sym g).
  eapply BuildCallGraph_edges_inv; [|exact Hrun].
  apply BuildCallGraph_nodes_inv.
Qed.

Lemma C9_calls_calledBy_witness :
  exists g a b,
    BuildCallGraph Demo.world [Demo.fiA; Demo.fiB] None = Returns (Ok g) /\
    Nodes g !! "A" = Some a /\ Nodes g !! "B" = Some b /\
    callsOf g a "B" = Some b /\ calledByOf g b "A" = Some a.
Proof.
  eexists _, 0, 1.
  split; [vm_compute; reflexivity|].
  split; [vm_compute; reflexivity|].
  split; [vm_compute; reflexivity|].
  assert (Hcalls : forall g0,
            BuildCallGraph Demo.world [Demo.fiA; Demo.fiB] None = Returns (Ok g0) ->
            callsOf g0 0 "B" = Some 1 /\ Nodes g0 !! "A" = Some 0 /\ Nodes g0 !! "B" = Some 1).
  { intros g0 Hg0. vm_compute in Hg0. injection Hg0 as <-.
    split; [vm_compute; reflexivity|]. split; vm_compute; reflexivity. }
  match goal with
  | |- callsOf ?g _ _ = _ /\ _ =>
      assert (Hrun : BuildCallGraph Demo.world [Demo.fiA; Demo.fiB] None = Returns (Ok g))
        by (vm_compute; reflexivity);
      destruct (Hcalls g Hrun) as (Hc & HA & HB);
      exact (conj Hc (proj1 (C9_calls_calledBy_symmetric Demo.world [Demo.fiA; Demo.fiB]
                               None g Hrun "A" "B" 0 1 HA HB) Hc))
  end.
Defined.

(** Graph assembly goes through when the text of every function is
    found and its calls are extracted: the graph operations do not
    panic. *)
Lemma BuildCallGraph_edges_completes (W : World) (projectRoot : option Path)
    (functions : list FunctionInfo) :
  forall g,
    graphInv g ->
    (forall fi, In fi functions -> is_Some (Nodes g !! getFunctionFullName fi)) ->
    (forall fi, In fi functions ->
       exists code calls,
         GetFunctionWithComments W fi projectRoot = Ok code /\
         GetFunctionCalls W code fi projectRoot = Returns (Ok calls)) ->
    exists g', BuildCallGraph_edges W functions projectRoot g = Returns (Ok g').
Proof.
  induction functions as [|fi functions IH]; intros g Hg Hnodes Hok; simpl; [eauto|].
  destruct (Hok fi (or_introl eq_refl)) as (code & calls & -> & ->).
  destruct (Hnodes fi (or_introl eq_refl)) as [node Hnode]. rewrite Hnode.
  assert (Hedges : forall calls g,
            graphInv g -> Nodes g !! getFunctionFullName fi = Some node ->
            exists g1, addEdges (getFunctionFullName fi) (Some node) g calls = Some g1 /\
                       graphInv g1 /\
                       (forall k l, Nodes g !! k = Some l -> Nodes g1 !! k = Some l)).
  { clear. induction calls as [|call calls IHc]; intros g Hg Hf; cbn [addEdges]; [eauto|].
    destruct (addEdge_inv _ node g call Hg Hf) as (g1 & -> & Hg1 & Hkeep).
    destruct (IHc g1 Hg1 (Hkeep _ _ Hf)) as (g2 & Hrun & Hg2 & Hkeep2).
    exists g2. split; [done|]. split; [done|]. intros k l Hk. by apply Hkeep2, Hkeep. }
  destruct (Hedges calls g Hg Hnode) as (g1 & -> & Hg1 & Hkeep).
  apply IH; [done | |].
  - intros fj Hin. destruct (Hnodes fj (or_intror Hin)) as [l Hl]. exists l. by apply Hkeep.
  - intros fj Hin. apply Hok. by right.
Qed.

Lemma BuildCallGraph_nodes_has (functions : list FunctionInfo) (fi : FunctionInfo) :
  In fi functions -> is_Some (Nodes (BuildCallGraph_nodes functions) !! getFunctionFullName fi).
Proof.
  unfold BuildCallGraph_nodes. generalize (mkCallGraph [] ∅).
  induction functions as [|fj functions IH]; intros g Hin; [done|]. simpl.
  destruct Hin as [<- | Hin]; [|by apply IH].
  destruct (ensureNode_has (getFunctionFullName fj) g) as [l Hl].
  clear IH. revert Hl. generalize (ensureNode (getFunctionFullName fj) g).
  induction functions as [|fk functions IH]; intros g1 Hl; simpl; [eauto|].
  apply IH. by apply ensureNode_old.
Qed.

Lemma BuildCallGraph_completes (W : World) (projectRoot : option Path)
    (functions : list FunctionInfo) :
  (forall fi, In fi functions ->
     exists code calls,
       GetFunctionWithComments W fi projectRoot = Ok code /\
       GetFunctionCalls W code fi projectRoot = Returns (Ok calls)) ->
  exists g, BuildCallGraph W functions projectRoot = Returns (Ok g).
Proof.
  intros Hok. apply BuildCallGraph_edges_completes; [| |done].
  - apply BuildCallGraph_nodes_inv.
  - apply BuildCallGraph_nodes_has.
Qed.
End GraphFacts.

(** ** Identity keys *)

Section KeyFacts.
Import Indexer.

Lemma list_ascii_of_string_app (s t : string) :
  list_ascii_of_string (s +:+ t) = list_ascii_of_string s ++ list_ascii_of_string t.
Proof.
  induction s as [|a s IH]; [reflexivity|].
  change (String a s +:+ t) with (String a (s +:+ t)). simpl. by rewrite IH.
Qed.

Lemma string_app_inv_tail (s1 s2 t : string) : s1 +:+ t = s2 +:+ t -> s1 = s2.
Proof.
  intros H. apply (f_equal list_ascii_of_string) in H.
  rewrite !list_ascii_of_string_app in H. apply app_inv_tail in H.
  rewrite <- (string_of_list_ascii_of_string s1), <- (string_of_list_ascii_of_string s2).
  by rewrite H.
Qed.

(** The registry key tells packages apart. *)
Lemma registryKey_inj_pkg (x y name : string) :
  registryKey x name = registryKey y name -> x = y.
Proof. unfold registryKey. apply string_app_inv_tail. Qed.

(** The first pass on a declaration appends its descriptor and enters it
    in the registry under the key of its package and name. *)
Lemma ListFunctions_decl_appends (path : Path) (pkgName : string) (st : IndexState)
    (fn : FuncDecl) :
  exists fi,
    ListFunctions_decl path pkgName st fn
    = mkIndexState (functions st ++ [fi])
                   (<[registryKey pkgName (fd_Name fn) := length (functions st)]>
                      (internalFuncs st))
                   (log st) /\
    PkgName fi = pkgName /\ FuncName fi = fd_Name fn /\ FileName fi = path.
Proof.
  unfold ListFunctions_decl, extractParameters, extractReturns.
  destruct (extractFields_total (fd_Params fn) []) as [params ->].
  destruct (fd_Results fn) as [results|].
  - destruct (extractFields_total results []) as [returns ->]. eauto.
  - eauto.
Qed.

(** C2, as stated, fails in graph assembly: the methods [Run] of the
    types [Worker] of the packages [x] and [y] get the same graph key,
    which holds no package, and one node. *)
Lemma C2_graph_key_without_package :
  Project.PkgName Demo.runX <> Project.PkgName Demo.runY /\
  Graph.getFunctionFullName Demo.runX = "Worker.Run" /\
  Graph.getFunctionFullName Demo.runY = "Worker.Run" /\
  Graph.store (Graph.BuildCallGraph_nodes [Demo.runX; Demo.runY])
    = [Graph.mkFunctionNode "Worker.Run" ∅ ∅] /\
  Graph.Nodes (Graph.BuildCallGraph_nodes [Demo.runX; Demo.runY]) = {[ "Worker.Run" := 0 ]}.
Proof.
  split; [discriminate|]. split; [reflexivity|]. split; [reflexivity|].
  split; vm_compute; reflexivity.
Qed.

(** C2, amended: the registry key of the indexer always holds the
    package, so the methods [Run] of two distinct packages [x] and [y]
    get two distinct keys and, once both are indexed, two registry
    entries that point to two descriptors; the key of graph assembly is
    the receiver type and the name alone, so descriptors that agree on
    these get the same graph key whatever their packages. *)
Theorem C2_registry_keys_hold_package
    (x y : string) (pathX pathY : Path) (st : IndexState) (runX runY : FuncDecl)
    (fiX fiY : Project.FunctionInfo) :
  x <> y ->
  fd_Name runX = fd_Name runY ->
  Project.StructName fiX = Project.StructName fiY ->
  Project.Name fiX = Project.Name fiY ->
  let st' := ListFunctions_decl pathY y (ListFunctions_decl pathX x st runX) runY in
  let keyX := registryKey x (fd_Name runX) in
  let keyY := registryKey y (fd_Name runY) in
  keyX <> keyY /\
  (exists dX dY dscX dscY,
     internalFuncs st' !! keyX = Some dX /\ internalFuncs st' !! keyY = Some dY /\
     dX <> dY /\
     functions st' !! dX = Some dscX /\ functions st' !! dY = Some dscY /\
     PkgName dscX = x /\ PkgName dscY = y) /\
  Graph.getFunctionFullName fiX = Graph.getFunctionFullName fiY.
Proof.
  intros Hxy Hname Hstruct Hn st' keyX keyY.
  assert (Hkeys : keyX <> keyY).
  { subst keyX keyY. rewrite Hname. intros Heq. by apply Hxy, (registryKey_inj_pkg _ _ _ Heq). }
  split; [done|]. split.
  - destruct (ListFunctions_decl_appends pathX x st runX) as (dscX & HstX & HpX & _).
    destruct (ListFunctions_decl_appends pathY y (ListFunctions_decl pathX x st runX) runY)
      as (dscY & HstY & HpY & _).
    subst st'. rewrite HstY, HstX. simpl.
    exists (length (functions st)), (length (functions st ++ [dscX])), dscX, dscY.
    fold keyX keyY.
    split; [|split; [|split; [|split; [|split]]]].
    + rewrite lookup_insert_ne by done. by rewrite lookup_insert_eq.
    + by rewrite lookup_insert_eq.
    + rewrite length_app. simpl. lia.
    + rewrite <- app_assoc. by apply list_lookup_middle.
    + by apply list_lookup_middle.
    + done.
  - unfold Graph.getFunctionFullName. by rewrite Hstruct, Hn.
Qed.

Lemma C2_registry_keys_witness :
  registryKey "x" "Run" <> registryKey "y" "Run" /\
  Graph.getFunctionFullName Demo.runX = Graph.getFunctionFullName Demo.runY.
Proof.
  pose proof (C2_registry_keys_hold_package "x" "y" ["x"; "worker.go"] ["y"; "worker.go"]
                (mkIndexState [] ∅ [])
                (mkFuncDecl (Some [mkField ["w"] (StarExpr (Ident "Worker"))]) "Run" [] None
                   (Some []) 3 5)
                (mkFuncDecl (Some [mkField ["w"] (StarExpr (Ident "Worker"))]) "Run" [] None
                   (Some []) 3 5)
                Demo.runX Demo.runY
                ltac:(discriminate) eq_refl eq_refl eq_refl) as (Hkeys & _ & Hgraph).
  exact (conj Hkeys Hgraph).
Defined.
End KeyFacts.
